(** * Perceptron learning (learn_perceptron.py): a shallow embedding

    The development follows the Python module function by function:
    [eval_perceptron], [update_weights] and [learn_perceptron].  NumPy
    arrays are lists, NumPy's shape errors and Python's end-of-file error
    are values of an error type, and the calls to the collaborators
    ([plot_perceptron], [print], [input]) are recorded in a trace. *)

From Stdlib Require Import String Ascii List Arith Lia Bool Sorted.
From Stdlib Require Import Floats.
Import ListNotations.

Set Implicit Arguments.

(** ** Scalars

    The entries of the arrays.  Nothing but the operations the module uses
    is asked of them, so the results below hold for IEEE doubles (where
    [leb] and [ltb] are both false on NaN) as well as for exact numbers. *)

Class Scalar := {
  num  : Type;
  zero : num;
  one  : num;
  add  : num -> num -> num;
  sub  : num -> num -> num;
  mul  : num -> num -> num;
  sqrt : num -> num;
  eqb  : num -> num -> bool;
  ltb  : num -> num -> bool;
  leb  : num -> num -> bool
}.

(** What the boundary case of the evaluator needs from the comparisons:
    a value equal to zero is [>= 0] and is not [< 0]. *)
Class ScalarOrder (K : Scalar) : Prop := {
  eqb_zero_leb : forall a : num, eqb a zero = true -> leb zero a = true;
  eqb_zero_ltb : forall a : num, eqb a zero = true -> ltb a zero = false
}.

(** NumPy's float64. *)
#[export] Instance float64 : Scalar := {
  num  := float;
  zero := PrimFloat.zero;
  one  := PrimFloat.one;
  add  := PrimFloat.add;
  sub  := PrimFloat.sub;
  mul  := PrimFloat.mul;
  sqrt := PrimFloat.sqrt;
  eqb  := PrimFloat.eqb;
  ltb  := PrimFloat.ltb;
  leb  := PrimFloat.leb
}.

(** ** Exceptions and the error monad of the pure functions *)

Inductive exn : Type :=
| ValueError   (* numpy: shapes not aligned / cannot be broadcast *)
| IndexError   (* a[i] out of range *)
| EOFError.    (* input() at end of file *)

Inductive result (A : Type) : Type :=
| Ok    : A -> result A
| Raise : exn -> result A.

Arguments Ok {A} _.
Arguments Raise {A} _.

Definition rbind {A B} (r : result A) (k : A -> result B) : result B :=
  match r with
  | Ok a => k a
  | Raise e => Raise e
  end.

Declare Scope result_scope.
Delimit Scope result_scope with result.
Notation "x <- c ;; k" := (rbind c (fun x => k))
  (at level 61, c at next level, right associativity) : result_scope.

(** [for x in l: acc = body(x, acc)], stopping at the first exception. *)
Fixpoint for_each {A B} (l : list A) (body : A -> B -> result B) (acc : B)
  : result B :=
  match l with
  | [] => Ok acc
  | x :: l' => rbind (body x acc) (for_each l' body)
  end.

(** [for i in range(n)]. *)
Definition for_range {B} (n : nat) (body : nat -> B -> result B) (acc : B)
  : result B :=
  for_each (seq 0 n) body acc.

(** [a[i]]. *)
Definition getitem {A} (a : list A) (i : nat) : result A :=
  match nth_error a i with
  | Some x => Ok x
  | None => Raise IndexError
  end.

Section Perceptron.

Context {K : Scalar}.

Local Open Scope result_scope.

(** ** Arrays

    A weight vector is a column (k x 1); a matrix of examples is the list of
    its rows. *)
Definition vec := list num.
Definition matrix := list vec.

(** [np.dot(this_case, w)] for a row (1 x c) and a column (k x 1): the 1 x 1
    product, or ValueError when c <> k. *)
Definition dot (x w : vec) : result num :=
  if length x =? length w
  then Ok (fold_left (fun acc p => add acc (mul (fst p) (snd p)))
                     (combine x w) zero)
  else Raise ValueError.

(** Elementwise [a op b] on columns (k x 1) and (c x 1), with NumPy's
    broadcasting: equal lengths, or one of them of length one. *)
Definition broadcast (op : num -> num -> num) (a b : vec) : result vec :=
  if length a =? length b then Ok (map (fun p => op (fst p) (snd p)) (combine a b))
  else match a, b with
       | _, [b0] => Ok (map (fun x => op x b0) a)
       | [a0], _ => Ok (map (fun y => op a0 y) b)
       | _, _ => Raise ValueError
       end.

(** [np.linalg.norm(v)] on a real array: sqrt(v.dot(v)). *)
Definition norm (v : vec) : num :=
  sqrt (fold_left (fun acc x => add acc (mul x x)) v zero).

(** [np.linalg.norm(w - w_gen_feas)]. *)
Definition norm_diff (w w_gen_feas : vec) : result num :=
  d <- broadcast sub w w_gen_feas ;; Ok (norm d).

(** [np.append(m, np.ones((n, 1)), axis=1)]. *)
Definition append_ones (m : matrix) : matrix :=
  map (fun row => row ++ [one]) m.

(** ** eval_perceptron *)

Definition eval_perceptron (neg_examples pos_examples : matrix) (w : vec)
  : result (list nat * list nat) :=
  let num_neg_examples := length neg_examples in
  let num_pos_examples := length pos_examples in
  mistakes0 <- for_range num_neg_examples (fun i mistakes0 =>
      x <- getitem neg_examples i ;;
      activation <- dot x w ;;
      if leb zero activation then Ok (mistakes0 ++ [i]) else Ok mistakes0) [] ;;
  mistakes1 <- for_range num_pos_examples (fun i mistakes1 =>
      x <- getitem pos_examples i ;;
      activation <- dot x w ;;
      if ltb activation zero then Ok (mistakes1 ++ [i]) else Ok mistakes1) [] ;;
  Ok (mistakes0, mistakes1).

(** ** update_weights

    The two loops, their activations and their tests are the source's; the
    statement under each test is left out there ("YOUR CODE HERE"). *)

(** Modelled from the spec: the statement missing under
    [if activation >= 0] in the loop over the negative examples, "subtract
    that example's vector from the weight vector (w <- w - x)", with
    [x = this_case.T]. *)
Definition correct_negative (w x : vec) : result vec := broadcast sub w x.

(** Modelled from the spec: the statement missing under
    [if activation < 0] in the loop over the positive examples, "add that
    example's vector to the weight vector (w <- w + x)". *)
Definition correct_positive (w x : vec) : result vec := broadcast add w x.

Definition update_weights (neg_examples pos_examples : matrix) (w_current : vec)
  : result vec :=
  let w := w_current in
  let num_neg_examples := length neg_examples in
  let num_pos_examples := length pos_examples in
  w <- for_range num_neg_examples (fun i w =>
      this_case <- getitem neg_examples i ;;
      let x := this_case in
      activation <- dot this_case w ;;
      if leb zero activation then correct_negative w x else Ok w) w ;;
  w <- for_range num_pos_examples (fun i w =>
      this_case <- getitem pos_examples i ;;
      let x := this_case in
      activation <- dot this_case w ;;
      if ltb activation zero then correct_positive w x else Ok w) w ;;
  Ok w.

(** ** learn_perceptron

    The local variables of one call, and the calls it makes to its
    collaborators, in order. *)

(** The arguments of one call of [plot_perceptron]; the two histories are
    the lists as they stand when the call is made. *)
Record plot_args := {
  plot_neg_examples    : matrix;
  plot_pos_examples    : matrix;
  plot_mistakes0       : list nat;
  plot_mistakes1       : list nat;
  plot_num_err_history : list nat;
  plot_w               : vec;
  plot_w_dist_history  : list num
}.

Inductive event : Type :=
| EvUpdate (w_current : vec)            (* update_weights(neg, pos, w) is called *)
| EvPrint (iter num_errs : nat) (w : vec) (* the two print lines *)
| EvPlot (args : plot_args)             (* plot_perceptron(...) is called *)
| EvInput (key : string).               (* input(...) returned key *)

Record frame := {
  iter            : nat;
  cur_w           : vec;       (* w *)
  num_errs        : nat;
  num_err_history : list nat;
  w_dist_history  : list num;
  trace           : list event
}.

Definition set_iter (n : nat) (st : frame) : frame :=
  {| iter := n; cur_w := cur_w st; num_errs := num_errs st;
     num_err_history := num_err_history st;
     w_dist_history := w_dist_history st; trace := trace st |}.

Definition set_w (w : vec) (st : frame) : frame :=
  {| iter := iter st; cur_w := w; num_errs := num_errs st;
     num_err_history := num_err_history st;
     w_dist_history := w_dist_history st; trace := trace st |}.

Definition set_num_errs (n : nat) (st : frame) : frame :=
  {| iter := iter st; cur_w := cur_w st; num_errs := n;
     num_err_history := num_err_history st;
     w_dist_history := w_dist_history st; trace := trace st |}.

(** [num_err_history.append(n)]. *)
Definition append_err (n : nat) (st : frame) : frame :=
  {| iter := iter st; cur_w := cur_w st; num_errs := num_errs st;
     num_err_history := num_err_history st ++ [n];
     w_dist_history := w_dist_history st; trace := trace st |}.

(** [w_dist_history.append(d)]. *)
Definition append_dist (d : num) (st : frame) : frame :=
  {| iter := iter st; cur_w := cur_w st; num_errs := num_errs st;
     num_err_history := num_err_history st;
     w_dist_history := w_dist_history st ++ [d]; trace := trace st |}.

Definition log_event (e : event) (st : frame) : frame :=
  {| iter := iter st; cur_w := cur_w st; num_errs := num_errs st;
     num_err_history := num_err_history st;
     w_dist_history := w_dist_history st; trace := trace st ++ [e] |}.

(** Statements of [learn_perceptron]: they read and write the frame and may
    raise. *)
Definition M (A : Type) : Type := frame -> frame * result A.

Definition ret {A} (a : A) : M A := fun st => (st, Ok a).

Definition raise {A} (e : exn) : M A := fun st => (st, Raise e).

Definition bind {A B} (m : M A) (k : A -> M B) : M B :=
  fun st =>
    match m st with
    | (st', Ok a) => k a st'
    | (st', Raise e) => (st', Raise e)
    end.

Definition lift {A} (r : result A) : M A := fun st => (st, r).

Definition gets {A} (f : frame -> A) : M A := fun st => (st, Ok (f st)).

Definition modify (f : frame -> frame) : M unit := fun st => (f st, Ok tt).

Local Close Scope result_scope.
Declare Scope frame_scope.
Local Open Scope frame_scope.
Notation "x <- c ;; k" := (bind c (fun x => k))
  (at level 61, c at next level, right associativity) : frame_scope.
Notation "c ;; k" := (bind c (fun _ => k))
  (at level 61, right associativity) : frame_scope.

(** ['q' in key]. *)
Fixpoint contains_q (key : string) : bool :=
  match key with
  | EmptyString => false
  | String c key' => Ascii.eqb c "q"%char || contains_q key'
  end.

Section Run.

Variables neg_examples pos_examples : matrix.
Variable w_gen_feas : vec.

(** [if w_gen_feas.size: w_dist_history.append(np.linalg.norm(w - w_gen_feas))]. *)
Definition record_distance : M unit :=
  match w_gen_feas with
  | [] => ret tt
  | _ :: _ =>
      w <- gets cur_w ;;
      d <- lift (norm_diff w w_gen_feas) ;;
      modify (append_dist d)
  end.

(** The evaluation of an epoch, up to the call of [plot_perceptron]: the
    same statements before the loop (iter = 0) and inside it. *)
Definition evaluate_and_plot : M unit :=
  w <- gets cur_w ;;
  mistakes <- lift (eval_perceptron neg_examples pos_examples w) ;;
  let mistakes0 := fst mistakes in
  let mistakes1 := snd mistakes in
  let n := length mistakes0 + length mistakes1 in
  modify (set_num_errs n) ;;
  modify (append_err n) ;;
  i <- gets iter ;;
  modify (log_event (EvPrint i n w)) ;;
  errs <- gets num_err_history ;;
  dists <- gets w_dist_history ;;
  modify (log_event (EvPlot
    {| plot_neg_examples := neg_examples;
       plot_pos_examples := pos_examples;
       plot_mistakes0 := mistakes0;
       plot_mistakes1 := mistakes1;
       plot_num_err_history := errs;
       plot_w := w;
       plot_w_dist_history := dists |})).

(** The body of the while loop, up to the call of [plot_perceptron]. *)
Definition epoch : M unit :=
  i <- gets iter ;;
  modify (set_iter (i + 1)) ;;
  w <- gets cur_w ;;
  modify (log_event (EvUpdate w)) ;;
  w' <- lift (update_weights neg_examples pos_examples w) ;;
  modify (set_w w') ;;
  record_distance ;;
  evaluate_and_plot.

(** [while num_errs > 0: ...], reading the answers to [input] from [keys];
    [input] raises EOFError when there is none left.  Every turn reads
    one answer, so the loop is defined by recursion on [keys]. *)
Fixpoint while_loop (keys : list string) : M unit :=
  n <- gets num_errs ;;
  if 0 <? n then
    epoch ;;
    match keys with
    | [] => raise EOFError
    | key :: keys' =>
        modify (log_event (EvInput key)) ;;
        if contains_q key then ret tt (* break *)
        else while_loop keys'
    end
  else ret tt.

End Run.

(** The frame when the bookkeeping is done and [w] is chosen. *)
Definition initial_frame (w : vec) : frame :=
  {| iter := 0; cur_w := w; num_errs := 0;
     num_err_history := []; w_dist_history := []; trace := [] |}.

(** [w_init if w_init.size else np.random.randn(3, 1)]; [randn] is what
    the generator draws. *)
Definition initial_weights (w_init : vec) (randn : num * num * num) : vec :=
  match w_init with
  | [] => let '(a, b, c) := randn in [a; b; c]
  | _ :: _ => w_init
  end.

(** [learn_perceptron], given what the random generator would draw and the
    lines standard input holds.  The frame is returned with the result. *)
Definition learn_perceptron (neg_examples_nobias pos_examples_nobias : matrix)
    (w_init w_gen_feas : vec) (randn : num * num * num) (stdin : list string)
  : frame * result vec :=
  let neg_examples := append_ones neg_examples_nobias in
  let pos_examples := append_ones pos_examples_nobias in
  let w := initial_weights w_init randn in
  (evaluate_and_plot neg_examples pos_examples ;;
   match stdin with
   | [] => raise EOFError
   | key :: keys =>
       modify (log_event (EvInput key)) ;;
       if contains_q key then gets cur_w
       else
         record_distance w_gen_feas ;;
         while_loop neg_examples pos_examples w_gen_feas keys ;;
         gets cur_w
   end) (initial_frame w).

(** What a trace holds of each kind of event. *)
Definition plots (tr : list event) : list plot_args :=
  flat_map (fun e => match e with EvPlot a => [a] | _ => [] end) tr.

Definition inputs (tr : list event) : list string :=
  flat_map (fun e => match e with EvInput k => [k] | _ => [] end) tr.

Definition updates (tr : list event) : list vec :=
  flat_map (fun e => match e with EvUpdate w => [w] | _ => [] end) tr.

(** The number of mistakes a call of [plot_perceptron] is given. *)
Definition plot_errs (a : plot_args) : nat :=
  length (plot_mistakes0 a) + length (plot_mistakes1 a).

(** ** Invariants of the histories

    The error history handed to each call of [plot_perceptron] has one entry
    more than there were calls of [update_weights] before it. *)
Definition plot_history_ok (st : frame) : Prop :=
  forall pre p post, trace st = pre ++ EvPlot p :: post ->
    length (plot_num_err_history p) = S (length (updates pre)).

(** The error history has one entry more than there were calls of
    [update_weights], which [iter] counts. *)
Definition history_ok (st : frame) : Prop :=
  length (num_err_history st) = S (length (updates (trace st))) /\
  iter st = length (updates (trace st)).

(** The distance history handed to a call of [plot_perceptron]: empty for
    the call of epoch 0, made before any answer is read; for a later call,
    made after a first answer to continue, it starts with the distance from
    [w0] and has one entry more than there were calls of [update_weights]. *)
Definition plot_distance_ok (w0 w_gen_feas : vec) (st : frame) : Prop :=
  forall pre p post, trace st = pre ++ EvPlot p :: post ->
    (updates pre = [] -> plot_w_dist_history p = [] /\ inputs pre = []) /\
    (updates pre <> [] ->
     exists d0 rest key,
       norm_diff w0 w_gen_feas = Ok d0 /\
       plot_w_dist_history p = d0 :: rest /\
       length rest = length (updates pre) /\
       hd_error (inputs pre) = Some key /\ contains_q key = false).

(** The distance history once the first answer was to continue. *)
Definition distance_ok (w0 w_gen_feas : vec) (st : frame) : Prop :=
  exists d0 rest key,
    norm_diff w0 w_gen_feas = Ok d0 /\
    w_dist_history st = d0 :: rest /\
    length rest = length (updates (trace st)) /\
    hd_error (inputs (trace st)) = Some key /\ contains_q key = false.

(** ** Checkpoints

    Checkpoint [k] of a run: the [k]-th call of [plot_perceptron] and the
    answer then read by [input], counting from 0. *)
Definition checkpoint (st : frame) (k : nat) (p : plot_args) (key : string)
  : Prop :=
  nth_error (plots (trace st)) k = Some p /\
  nth_error (inputs (trace st)) k = Some key.

(** When the test of the while loop is evaluated: the last checkpoint shows
    the current weights and error count and was answered to continue; all
    earlier ones showed errors, were answered to continue and were followed
    by a call of [update_weights] on the weights shown. *)
Definition loop_head_ok (st : frame) : Prop :=
  let n := length (updates (trace st)) in
  length (plots (trace st)) = S n /\
  length (inputs (trace st)) = S n /\
  (exists p key, checkpoint st n p key /\
     plot_w p = cur_w st /\ plot_errs p = num_errs st /\
     contains_q key = false) /\
  (forall k p key, k < n -> checkpoint st k p key ->
     0 < plot_errs p /\ contains_q key = false /\
     nth_error (updates (trace st)) k = Some (plot_w p)).

(** When the run is over, with result [r]. *)
Definition halting_ok (w_gen_feas : vec) (st : frame) (r : result vec) : Prop :=
  (forall k p key, checkpoint st k p key ->
     plot_errs p = 0 \/ contains_q key = true ->
     length (plots (trace st)) = S k /\
     length (updates (trace st)) = k /\
     (r = Ok (plot_w p) \/
      w_gen_feas <> [] /\
      exists e, norm_diff (plot_w p) w_gen_feas = Raise e /\ r = Raise e)) /\
  (forall k p key, checkpoint st k p key ->
     0 < plot_errs p -> contains_q key = false ->
     nth_error (updates (trace st)) k = Some (plot_w p) /\
     (S k < length (plots (trace st)) \/
      exists e, r = Raise e /\ e <> EOFError) \/
     w_gen_feas <> [] /\
     exists e, norm_diff (plot_w p) w_gen_feas = Raise e /\ r = Raise e) /\
  (forall w, r = Ok w ->
     w = cur_w st /\
     exists k p key, checkpoint st k p key /\
       length (plots (trace st)) = S k /\ plot_w p = w /\
       (plot_errs p = 0 \/ contains_q key = true)).

(** ** The sweep in the words of the specification

    The second reading of [update_weights], by recursion on the examples
    rather than by index, to compare with the definition above. *)

Definition vsub (w x : vec) : vec :=
  map (fun p => sub (fst p) (snd p)) (combine w x).

Definition vadd (w x : vec) : vec :=
  map (fun p => add (fst p) (snd p)) (combine w x).

(** One pass over [examples], in order: the activation of each example is
    taken against the running vector, and a misclassified example is
    corrected at once with [fix_w]. *)
Fixpoint sweep (misclassified : num -> bool) (fix_w : vec -> vec -> vec)
    (examples : matrix) (w : vec) : result vec :=
  match examples with
  | [] => Ok w
  | x :: rest =>
      rbind (dot x w) (fun activation =>
        sweep misclassified fix_w rest
              (if misclassified activation then fix_w w x else w))
  end.

(** Negatives first ([w - x] where the activation is [>= 0]), then
    positives ([w + x] where it is [< 0]). *)
Definition online_sweep (negatives positives : matrix) (w : vec) : result vec :=
  rbind (sweep (fun a => leb zero a) vsub negatives w)
        (sweep (fun a => ltb a zero) vadd positives).

(** [n] applications of [update_weights]. *)
Fixpoint epochs (n : nat) (neg_examples pos_examples : matrix) (w : vec)
  : result vec :=
  match n with
  | 0 => Ok w
  | S n' => rbind (update_weights neg_examples pos_examples w)
                  (epochs n' neg_examples pos_examples)
  end.

(** What every call of [plot_perceptron] is given: the two augmented
    matrices, the mistakes [eval_perceptron] finds for the weights given,
    an error history that ends with their number, and what was printed
    just before, under the number of calls of [update_weights] so far. *)
Definition plot_shows_evaluation (neg_examples pos_examples : matrix)
    (st : frame) : Prop :=
  forall pre p post, trace st = pre ++ EvPlot p :: post ->
    plot_neg_examples p = neg_examples /\
    plot_pos_examples p = pos_examples /\
    eval_perceptron neg_examples pos_examples (plot_w p)
      = Ok (plot_mistakes0 p, plot_mistakes1 p) /\
    last (plot_num_err_history p) 0 = plot_errs p /\
    exists pre',
      pre = pre' ++ [EvPrint (length (updates pre)) (plot_errs p) (plot_w p)].

(** ** update_weights with its two missing statements left open

    The function as the source has it: [fix_negative] and [fix_positive]
    stand for whatever is written under the two tests. *)
Definition update_weights_with (fix_negative fix_positive : vec -> vec -> result vec)
    (neg_examples pos_examples : matrix) (w_current : vec) : result vec :=
  let w := w_current in
  let num_neg_examples := length neg_examples in
  let num_pos_examples := length pos_examples in
  rbind (for_range num_neg_examples (fun i w =>
      rbind (getitem neg_examples i) (fun this_case =>
      let x := this_case in
      rbind (dot this_case w) (fun activation =>
      if leb zero activation then fix_negative w x else Ok w))) w) (fun w =>
  rbind (for_range num_pos_examples (fun i w =>
      rbind (getitem pos_examples i) (fun this_case =>
      let x := this_case in
      rbind (dot this_case w) (fun activation =>
      if ltb activation zero then fix_positive w x else Ok w))) w) (fun w =>
  Ok w)).

End Perceptron.

(** ** read_dataset

    [data] is the dictionary [scipy.io.loadmat(filename)] returns: the
    variables of the file by name, among entries of its own. *)
Inductive key_error : Type :=
| KeyError (k : string).

Definition mat_dict (A : Type) : Type := list (string * A).

(** [data[k]]. *)
Fixpoint dict_get {A} (data : mat_dict A) (k : string) : option A :=
  match data with
  | [] => None
  | (k', v) :: rest => if String.eqb k' k then Some v else dict_get rest k
  end.

(** [[data[k] for k in ks]]: the lookups are made in order and the first
    missing key raises KeyError. *)
Fixpoint read_keys {A} (data : mat_dict A) (ks : list string)
  : key_error + list A :=
  match ks with
  | [] => inr []
  | k :: ks' =>
      match dict_get data k with
      | None => inl (KeyError k)
      | Some v =>
          match read_keys data ks' with
          | inl e => inl e
          | inr vs => inr (v :: vs)
          end
      end
  end.

Definition dataset_keys : list string :=
  ["neg_examples_nobias"; "pos_examples_nobias"; "w_init"; "w_gen_feas"]%string.

Definition read_dataset {A} (data : mat_dict A) : key_error + list A :=
  read_keys data dataset_keys.

(** ** A separable dataset in float64

    negatives = {(-1,-1)}, positives = {(1,1)}, w_init = (0,0,0). *)
Definition toy_negatives : @matrix float64 := [[(-1)%float; (-1)%float]].
Definition toy_positives : @matrix float64 := [[1%float; 1%float]].
Definition toy_w_init : @vec float64 := [0%float; 0%float; 0%float].

(** A vector that separates the two points. *)
Definition toy_w_gen_feas : @vec float64 := [1%float; 1%float; (-1)%float].

(** What the random generator is taken to draw where it is not consulted. *)
Definition toy_randn : float * float * float := (0%float, 0%float, 0%float).

(** ** Three raw columns and four weights, in float64 *)
Definition wide_negatives : @matrix float64 := [[(-1)%float; (-1)%float; (-1)%float]].
Definition wide_positives : @matrix float64 := [[1%float; 1%float; 1%float]].
Definition wide_w_init : @vec float64 := [1%float; 1%float; 1%float; 0%float].

(** ** A feasible vector of two components, against three weights *)
Definition short_w_gen_feas : @vec float64 := [1%float; 1%float].

(** * Properties *)

(** ** float64 satisfies the order laws *)

Lemma float64_eqb_zero (a : float) :
  PrimFloat.eqb a PrimFloat.zero = true ->
  PrimFloat.leb PrimFloat.zero a = true /\ PrimFloat.ltb a PrimFloat.zero = false.
Proof.
  rewrite eqb_spec, leb_spec, ltb_spec.
  change (Prim2SF PrimFloat.zero) with (S754_zero false).
  destruct (Prim2SF a) as [s | s | | s m e];
    try destruct s; cbn; try discriminate; auto.
Qed.

Lemma float64_order : ScalarOrder float64.
Proof.
  split; intros a H; apply float64_eqb_zero in H; tauto.
Qed.

(** ** Loops *)

Lemma rbind_ok {X Y} (r : result X) (k : X -> result Y) (y : Y) :
  rbind r k = Ok y -> exists x, r = Ok x /\ k x = Ok y.
Proof.
  destruct r as [x | e]; simpl; intros H; [eauto | discriminate].
Qed.

Lemma for_each_app {A B} (l1 l2 : list A) (body : A -> B -> result B) (acc : B) :
  for_each (l1 ++ l2) body acc = rbind (for_each l1 body acc) (for_each l2 body).
Proof.
  revert acc; induction l1 as [| x l1 IH]; intros acc; simpl; [reflexivity |].
  destruct (body x acc) as [acc' | e]; simpl; [apply IH | reflexivity].
Qed.

Lemma for_range_S {B} (n : nat) (body : nat -> B -> result B) (acc : B) :
  for_range (S n) body acc = rbind (for_range n body acc) (body n).
Proof.
  unfold for_range. rewrite seq_S, for_each_app. simpl.
  destruct (for_each (seq 0 n) body acc) as [acc' | e]; simpl; [| reflexivity].
  destruct (body n acc'); reflexivity.
Qed.

(** The invariant rule of [for i in range(n)]. *)
Lemma for_range_inv {B} (P : nat -> B -> Prop) (n : nat)
    (body : nat -> B -> result B) (init r : B) :
  P 0 init ->
  (forall i acc acc', i < n -> P i acc -> body i acc = Ok acc' -> P (S i) acc') ->
  for_range n body init = Ok r -> P n r.
Proof.
  intros H0 Hstep. revert r.
  induction n as [| n IH]; intros r Hr.
  - unfold for_range in Hr; simpl in Hr. now inversion Hr; subst.
  - rewrite for_range_S in Hr. apply rbind_ok in Hr as (acc & Hacc & Hb).
    apply (Hstep n acc r); [lia | | exact Hb].
    apply IH; [| exact Hacc].
    intros i a a' Hi. apply Hstep. lia.
Qed.

(** A loop by index that only reads [l[i]] is the loop over [l]. *)
Lemma for_each_getitem {A B} (pre l : list A) (f : A -> B -> result B) (acc : B) :
  for_each (seq (length pre) (length l))
           (fun i acc => rbind (getitem (pre ++ l) i) (fun x => f x acc)) acc
  = for_each l f acc.
Proof.
  revert pre acc; induction l as [| x l IH]; intros pre acc; simpl; [reflexivity |].
  unfold getitem at 1. rewrite nth_error_app2, Nat.sub_diag by lia. simpl.
  destruct (f x acc) as [acc' | e]; simpl; [| reflexivity].
  specialize (IH (pre ++ [x]) acc').
  rewrite length_app, Nat.add_1_r, <- app_assoc in IH. exact IH.
Qed.

Lemma for_range_getitem {A B} (l : list A) (f : A -> B -> result B) (acc : B) :
  for_range (length l) (fun i acc => rbind (getitem l i) (fun x => f x acc)) acc
  = for_each l f acc.
Proof. exact (for_each_getitem [] l f acc). Qed.

(** ** The evaluator *)

Lemma StronglySorted_snoc (l : list nat) (i : nat) :
  StronglySorted lt l -> Forall (fun j => j < i) l -> StronglySorted lt (l ++ [i]).
Proof.
  induction 1 as [| a l Hl IH Ha]; intros Hi; simpl.
  - repeat constructor.
  - inversion Hi as [| ? ? Hai Hli]; subst.
    constructor; [apply IH; exact Hli |].
    apply Forall_app; split; [exact Ha | repeat constructor; exact Hai].
Qed.

(** A loop that appends the index or leaves the list alone builds an
    ascending list of indices below the bound. *)
Lemma collect_indices_sorted (n : nat) (body : nat -> list nat -> result (list nat))
    (r : list nat) :
  (forall i acc acc', body i acc = Ok acc' -> acc' = acc ++ [i] \/ acc' = acc) ->
  for_range n body [] = Ok r ->
  StronglySorted lt r /\ Forall (fun j => j < n) r.
Proof.
  intros Hbody Hr.
  refine (for_range_inv (fun i m => StronglySorted lt m /\ Forall (fun j => j < i) m)
            _ _ _ _ Hr).
  - split; constructor.
  - intros i acc acc' _ [Hs Hf] Hb.
    destruct (Hbody _ _ _ Hb) as [-> | ->].
    + split; [apply StronglySorted_snoc; assumption |].
      apply Forall_app; split; [| repeat constructor].
      eapply Forall_impl; [| exact Hf]. simpl; intros; lia.
    + split; [exact Hs |].
      eapply Forall_impl; [| exact Hf]. simpl; intros; lia.
Qed.

Section Evaluator.

Context {K : Scalar}.

(** The loop of [eval_perceptron] over one class, with its test. *)
Lemma collect_mistakes_spec (examples : matrix) (w : vec) (test : num -> bool)
    (m : list nat) :
  for_range (length examples) (fun i acc =>
      rbind (getitem examples i) (fun x =>
      rbind (dot x w) (fun activation =>
      if test activation then Ok (acc ++ [i]) else Ok acc))) [] = Ok m ->
  forall j, In j m <->
    exists x a, nth_error examples j = Some x /\ dot x w = Ok a /\ test a = true.
Proof.
  intros Hm.
  assert (Hinv : forall j, In j m <-> j < length examples /\
            exists x a, nth_error examples j = Some x /\ dot x w = Ok a /\ test a = true).
  { refine (for_range_inv (fun i acc => forall j, In j acc <->
        j < i /\ exists x a, nth_error examples j = Some x /\ dot x w = Ok a /\ test a = true)
        _ _ _ _ Hm).
    - intros j; simpl; split; [tauto | intros [H _]; lia].
    - intros i acc acc' Hi IH Hb j.
      apply rbind_ok in Hb as (x & Hx & Hb).
      apply rbind_ok in Hb as (a & Ha & Hb).
      unfold getitem in Hx.
      destruct (nth_error examples i) as [x' |] eqn:Hnth; [| discriminate].
      inversion Hx; subst x'; clear Hx.
      destruct (test a) eqn:Ht; inversion Hb; subst acc'; clear Hb.
      + rewrite in_app_iff, IH; simpl. split.
        * intros [[Hj Hex] | [<- | []]]; [split; [lia | exact Hex] |].
          split; [lia | exists x, a; auto].
        * intros [Hj Hex]. destruct (Nat.eq_dec i j) as [-> | Hne]; [tauto |].
          left; split; [lia | exact Hex].
      + rewrite IH. split.
        * intros [Hj Hex]; split; [lia | exact Hex].
        * intros [Hj (x' & a' & Hx' & Ha' & Ht')].
          destruct (Nat.eq_dec j i) as [-> | Hne].
          -- rewrite Hnth in Hx'; inversion Hx'; subst x'.
             rewrite Ha in Ha'; inversion Ha'; subst a'. congruence.
          -- split; [lia | exists x', a'; auto]. }
  intros j; rewrite Hinv. split; [tauto |].
  intros (x & a & Hx & H); split; [| eauto].
  apply nth_error_Some; congruence.
Qed.

Lemma eval_perceptron_ok (neg_examples pos_examples : matrix) (w : vec)
    (m0 m1 : list nat) :
  eval_perceptron neg_examples pos_examples w = Ok (m0, m1) ->
  for_range (length neg_examples) (fun i acc =>
      rbind (getitem neg_examples i) (fun x =>
      rbind (dot x w) (fun activation =>
      if leb zero activation then Ok (acc ++ [i]) else Ok acc))) [] = Ok m0 /\
  for_range (length pos_examples) (fun i acc =>
      rbind (getitem pos_examples i) (fun x =>
      rbind (dot x w) (fun activation =>
      if ltb activation zero then Ok (acc ++ [i]) else Ok acc))) [] = Ok m1.
Proof.
  unfold eval_perceptron. intros H.
  apply rbind_ok in H as (a0 & H0 & H).
  apply rbind_ok in H as (a1 & H1 & H).
  inversion H; subst. split; assumption.
Qed.

(** C2. A negative example is recorded as a mistake exactly when its
    activation is [>= 0], a positive one exactly when its activation is
    [< 0]; an example whose activation equals zero is therefore recorded
    when it is negative and not recorded when it is positive. *)
Theorem eval_perceptron_mistakes (KO : ScalarOrder K)
    (neg_examples pos_examples : matrix) (w : vec) (m0 m1 : list nat) :
  eval_perceptron neg_examples pos_examples w = Ok (m0, m1) ->
  (forall i, In i m0 <->
     exists x a, nth_error neg_examples i = Some x /\ dot x w = Ok a /\
                 leb zero a = true) /\
  (forall i, In i m1 <->
     exists x a, nth_error pos_examples i = Some x /\ dot x w = Ok a /\
                 ltb a zero = true) /\
  (forall i x a, nth_error neg_examples i = Some x -> dot x w = Ok a ->
     eqb a zero = true -> In i m0) /\
  (forall i x a, nth_error pos_examples i = Some x -> dot x w = Ok a ->
     eqb a zero = true -> ~ In i m1).
Proof.
  intros H. apply eval_perceptron_ok in H as [H0 H1].
  pose proof (collect_mistakes_spec _ _ (fun a => leb zero a) H0) as S0.
  pose proof (collect_mistakes_spec _ _ (fun a => ltb a zero) H1) as S1.
  simpl in S0, S1.
  split; [exact S0 |]. split; [exact S1 |]. split.
  - intros i x a Hx Ha Hz. apply S0. exists x, a. auto using eqb_zero_leb.
  - intros i x a Hx Ha Hz Hin. apply S1 in Hin as (x' & a' & Hx' & Ha' & Hlt).
    rewrite Hx in Hx'; inversion Hx'; subst x'.
    rewrite Ha in Ha'; inversion Ha'; subst a'.
    rewrite (eqb_zero_ltb _ Hz) in Hlt. discriminate.
Qed.

(** C3. Both lists returned by [eval_perceptron] are strictly ascending,
    and each index is below the number of examples of its class. *)
Theorem eval_perceptron_sorted_in_range
    (neg_examples pos_examples : matrix) (w : vec) (m0 m1 : list nat) :
  eval_perceptron neg_examples pos_examples w = Ok (m0, m1) ->
  (StronglySorted lt m0 /\ Forall (fun i => i < length neg_examples) m0) /\
  (StronglySorted lt m1 /\ Forall (fun i => i < length pos_examples) m1).
Proof.
  intros H. apply eval_perceptron_ok in H as [H0 H1].
  split; (eapply collect_indices_sorted; [| eassumption]);
    intros i acc acc' Hb;
    apply rbind_ok in Hb as (x & _ & Hb);
    apply rbind_ok in Hb as (a & _ & Hb);
    match type of Hb with (if ?c then _ else _) = _ => destruct c end;
    inversion Hb; auto.
Qed.

End Evaluator.

(** ** The weight updater *)

Section Updater.

Context {K : Scalar}.

Lemma dot_ok_length (x w : vec) (a : num) :
  dot x w = Ok a -> length x = length w.
Proof.
  unfold dot. destruct (Nat.eqb_spec (length x) (length w)); [auto | discriminate].
Qed.

Lemma dot_mismatch (x w : vec) :
  length x <> length w -> dot x w = Raise ValueError.
Proof.
  unfold dot. destruct (Nat.eqb_spec (length x) (length w)); [contradiction | auto].
Qed.

Lemma broadcast_same_length (op : num -> num -> num) (a b : vec) :
  length a = length b ->
  broadcast op a b = Ok (map (fun p => op (fst p) (snd p)) (combine a b)).
Proof.
  intros H. unfold broadcast. now rewrite H, Nat.eqb_refl.
Qed.

(** One loop of [update_weights], read as a pass over the list. *)
Lemma for_each_sweep (test : num -> bool) (op : num -> num -> num)
    (examples : matrix) (w : vec) :
  for_each examples (fun x w =>
      rbind (dot x w) (fun activation =>
      if test activation then broadcast op w x else Ok w)) w
  = sweep test (fun w x => map (fun p => op (fst p) (snd p)) (combine w x))
          examples w.
Proof.
  revert w; induction examples as [| x rest IH]; intros w; simpl; [reflexivity |].
  destruct (dot x w) as [a | e] eqn:Hdot; simpl; [| reflexivity].
  destruct (test a); simpl; [| apply IH].
  rewrite broadcast_same_length by (symmetry; eapply dot_ok_length; eauto).
  simpl. apply IH.
Qed.

(** The loop of [update_weights] over the negative examples. *)
Lemma negative_pass_sweep (neg_examples : matrix) (w : vec) :
  for_range (length neg_examples) (fun i w =>
      rbind (getitem neg_examples i) (fun this_case =>
      let x := this_case in
      rbind (dot this_case w) (fun activation =>
      if leb zero activation then correct_negative w x else Ok w))) w
  = sweep (fun a => leb zero a) vsub neg_examples w.
Proof.
  unfold correct_negative. cbv zeta.
  rewrite (for_range_getitem neg_examples (fun x w =>
      rbind (dot x w) (fun activation =>
      if leb zero activation then broadcast sub w x else Ok w))).
  apply (for_each_sweep (fun a => leb zero a) sub).
Qed.

(** The loop of [update_weights] over the positive examples. *)
Lemma positive_pass_sweep (pos_examples : matrix) (w : vec) :
  for_range (length pos_examples) (fun i w =>
      rbind (getitem pos_examples i) (fun this_case =>
      let x := this_case in
      rbind (dot this_case w) (fun activation =>
      if ltb activation zero then correct_positive w x else Ok w))) w
  = sweep (fun a => ltb a zero) vadd pos_examples w.
Proof.
  unfold correct_positive. cbv zeta.
  rewrite (for_range_getitem pos_examples (fun x w =>
      rbind (dot x w) (fun activation =>
      if ltb activation zero then broadcast add w x else Ok w))).
  apply (for_each_sweep (fun a => ltb a zero) add).
Qed.

(** C1. One call of [update_weights] is one online sweep: the negative
    examples in index order, each with activation [>= 0] against the running
    vector subtracted from it at once, then the positive examples in index
    order, each with activation [< 0] added at once; the vector after both
    passes is returned. *)
Theorem update_weights_online_sweep (neg_examples pos_examples : matrix)
    (w_current : vec) :
  update_weights neg_examples pos_examples w_current
  = online_sweep neg_examples pos_examples w_current.
Proof.
  unfold update_weights, online_sweep. cbv zeta.
  rewrite negative_pass_sweep.
  destruct (sweep (fun a => leb zero a) vsub neg_examples w_current)
    as [w1 | e]; simpl; [| reflexivity].
  rewrite positive_pass_sweep.
  destruct (sweep (fun a => ltb a zero) vadd pos_examples w1) as [w2 | e];
    reflexivity.
Qed.

(** The sweep, one example at a time: the correction of the first negative
    example is in effect for all that follow. *)
Lemma online_sweep_negative (x : vec) (negatives positives : matrix) (w : vec) :
  online_sweep (x :: negatives) positives w
  = rbind (dot x w) (fun activation =>
      online_sweep negatives positives
        (if leb zero activation then vsub w x else w)).
Proof.
  unfold online_sweep; simpl. destruct (dot x w); reflexivity.
Qed.

Lemma online_sweep_positive (x : vec) (positives : matrix) (w : vec) :
  online_sweep [] (x :: positives) w
  = rbind (dot x w) (fun activation =>
      online_sweep [] positives
        (if ltb activation zero then vadd w x else w)).
Proof.
  unfold online_sweep; simpl. destruct (dot x w); reflexivity.
Qed.

(** *** Which exceptions the pure functions raise *)

Lemma getitem_raise {A} (a : list A) (i : nat) (e : exn) :
  getitem a i = Raise e -> e = IndexError.
Proof.
  unfold getitem. destruct (nth_error a i); intros H; inversion H; reflexivity.
Qed.

Lemma dot_raise (x w : vec) (e : exn) : dot x w = Raise e -> e = ValueError.
Proof.
  unfold dot. destruct (length x =? length w); intros H; inversion H; reflexivity.
Qed.

Lemma broadcast_raise (op : num -> num -> num) (a b : vec) (e : exn) :
  broadcast op a b = Raise e -> e = ValueError.
Proof.
  unfold broadcast. destruct (length a =? length b); [discriminate |].
  destruct a as [| a0 [| a1 a]]; destruct b as [| b0 [| b1 b]];
    intros H; inversion H; reflexivity.
Qed.

Lemma norm_diff_raise (w g : vec) (e : exn) :
  norm_diff w g = Raise e -> e = ValueError.
Proof.
  unfold norm_diff. destruct (broadcast sub w g) eqn:Hb; simpl; [discriminate |].
  intros H; inversion H; subst. eapply broadcast_raise; eauto.
Qed.

Lemma for_each_raise {A B} (P : exn -> Prop) (l : list A)
    (body : A -> B -> result B) (acc : B) (e : exn) :
  (forall x a e, body x a = Raise e -> P e) ->
  for_each l body acc = Raise e -> P e.
Proof.
  intros Hbody. revert acc; induction l as [| x l IH]; intros acc; simpl;
    [discriminate |].
  destruct (body x acc) as [acc' | e'] eqn:Hb; simpl; [apply IH |].
  intros H; inversion H; subst. eauto.
Qed.

(** A loop over the examples that takes [dot x w] and then cannot fail
    raises IndexError or ValueError only. *)
Lemma example_loop_raise {B} (examples : matrix)
    (step : nat -> vec -> B -> result num) (k : nat -> vec -> B -> num -> result B)
    (n : nat) (acc : B) (e : exn) :
  (forall i x a e, step i x a = Raise e -> e = ValueError) ->
  (forall i x a v e, k i x a v = Raise e -> e = ValueError) ->
  for_range n (fun i acc =>
      rbind (getitem examples i) (fun x =>
      rbind (step i x acc) (k i x acc))) acc = Raise e ->
  e <> EOFError.
Proof.
  intros Hstep Hk. unfold for_range.
  apply for_each_raise with (P := fun e => e <> EOFError).
  intros i a e' H.
  destruct (getitem examples i) as [x | e1] eqn:Hg; simpl in H.
  - destruct (step i x a) as [v | e2] eqn:Hs; simpl in H.
    + apply Hk in H. subst; discriminate.
    + inversion H; subst. apply Hstep in Hs. subst; discriminate.
  - inversion H; subst. apply getitem_raise in Hg. subst; discriminate.
Qed.

Lemma eval_perceptron_raise (neg_examples pos_examples : matrix) (w : vec)
    (e : exn) :
  eval_perceptron neg_examples pos_examples w = Raise e -> e <> EOFError.
Proof.
  unfold eval_perceptron.
  match goal with |- rbind ?l0 _ = _ -> _ => destruct l0 as [m0 | e0] eqn:H0 end;
    simpl.
  - match goal with |- rbind ?l1 _ = _ -> _ => destruct l1 as [m1 | e1] eqn:H1 end;
      simpl; [discriminate |].
    intros H; inversion H; subst. revert H1.
    apply (example_loop_raise pos_examples (fun _ x _ => dot x w)
             (fun i _ acc a => if ltb a zero then Ok (acc ++ [i]) else Ok acc)).
    + intros _ x _ e'. apply dot_raise.
    + intros i _ a v e'. destruct (ltb v zero); discriminate.
  - intros H; inversion H; subst. revert H0.
    apply (example_loop_raise neg_examples (fun _ x _ => dot x w)
             (fun i _ acc a => if leb zero a then Ok (acc ++ [i]) else Ok acc)).
    + intros _ x _ e'. apply dot_raise.
    + intros i _ a v e'. destruct (leb zero v); discriminate.
Qed.

Lemma update_weights_raise (neg_examples pos_examples : matrix) (w : vec)
    (e : exn) :
  update_weights neg_examples pos_examples w = Raise e -> e <> EOFError.
Proof.
  unfold update_weights.
  match goal with |- rbind ?l0 _ = _ -> _ => destruct l0 as [w1 | e0] eqn:H0 end;
    simpl.
  - match goal with |- rbind ?l1 _ = _ -> _ => destruct l1 as [w2 | e1] eqn:H1 end;
      simpl; [discriminate |].
    intros H; inversion H; subst. revert H1.
    apply (example_loop_raise pos_examples (fun _ x w => dot x w)
             (fun _ x w a => if ltb a zero then correct_positive w x else Ok w)).
    + intros _ x a e'. apply dot_raise.
    + intros _ x a v e'. destruct (ltb v zero); [apply broadcast_raise | discriminate].
  - intros H; inversion H; subst. revert H0.
    apply (example_loop_raise neg_examples (fun _ x w => dot x w)
             (fun _ x w a => if leb zero a then correct_negative w x else Ok w)).
    + intros _ x a e'. apply dot_raise.
    + intros _ x a v e'. destruct (leb zero v); [apply broadcast_raise | discriminate].
Qed.

(** *** Rows of the length of the weight vector *)

Lemma dot_same_length (x w : vec) :
  length x = length w -> exists a, dot x w = Ok a.
Proof.
  intros H. unfold dot. rewrite H, Nat.eqb_refl. eauto.
Qed.

Lemma vsub_length (w x : vec) : length x = length w -> length (vsub w x) = length w.
Proof.
  intros H. unfold vsub. rewrite length_map, length_combine, H. apply Nat.min_id.
Qed.

Lemma vadd_length (w x : vec) : length x = length w -> length (vadd w x) = length w.
Proof.
  intros H. unfold vadd. rewrite length_map, length_combine, H. apply Nat.min_id.
Qed.

Lemma sweep_well_shaped (test : num -> bool) (fix_w : vec -> vec -> vec)
    (examples : matrix) (w : vec) :
  (forall w x, length x = length w -> length (fix_w w x) = length w) ->
  Forall (fun x => length x = length w) examples ->
  exists w', sweep test fix_w examples w = Ok w' /\ length w' = length w.
Proof.
  intros Hfix. revert w; induction examples as [| x rest IH]; intros w Hall; simpl.
  - eauto.
  - inversion Hall as [| ? ? Hx Hrest]; subst.
    destruct (dot_same_length _ _ Hx) as [a ->]. simpl.
    assert (Hlen : length (if test a then fix_w w x else w) = length w)
      by (destruct (test a); auto).
    destruct (IH (if test a then fix_w w x else w)) as (w' & Hw' & Hl).
    + eapply Forall_impl; [| exact Hrest]. simpl; intros y Hy.
      exact (eq_trans Hy (eq_sym Hlen)).
    + exists w'. split; [exact Hw' | exact (eq_trans Hl Hlen)].
Qed.

(** On rows of the length of [w], [update_weights] returns a vector of
    that length. *)
Lemma update_weights_well_shaped (neg_examples pos_examples : matrix) (w : vec) :
  Forall (fun x => length x = length w) (neg_examples ++ pos_examples) ->
  exists w', update_weights neg_examples pos_examples w = Ok w' /\
             length w' = length w.
Proof.
  intros Hall. apply Forall_app in Hall as [Hneg Hpos].
  unfold update_weights. cbv zeta. rewrite negative_pass_sweep.
  destruct (@sweep_well_shaped (fun a => leb zero a) vsub neg_examples w
              vsub_length Hneg) as (w1 & -> & Hl1). simpl.
  rewrite positive_pass_sweep.
  assert (Hpos1 : Forall (fun x => length x = length w1) pos_examples)
    by (eapply Forall_impl; [| exact Hpos]; simpl; intros y Hy;
        exact (eq_trans Hy (eq_sym Hl1))).
  destruct (@sweep_well_shaped (fun a => ltb a zero) vadd pos_examples w1
              vadd_length Hpos1) as (w2 & -> & Hl2). simpl.
  exists w2. split; [reflexivity | exact (eq_trans Hl2 Hl1)].
Qed.

Lemma norm_diff_same_length (w g : vec) :
  length g = length w -> exists d, norm_diff w g = Ok d.
Proof.
  intros H. unfold norm_diff.
  rewrite broadcast_same_length by (symmetry; exact H). simpl. eauto.
Qed.

End Updater.

(** Two negative examples from w = (0,0,0) in float64: the first is
    corrected, and against the corrected vector the second has activation
    -1.5 and is left alone (a batch update would have subtracted both). *)
Example update_weights_is_online :
  update_weights (K := float64)
    [[1%float; 0%float; 1%float]; [0.5%float; 0%float; 1%float]] []
    [0%float; 0%float; 0%float]
  = Ok [(-1)%float; 0%float; (-1)%float].
Proof. vm_compute. reflexivity. Qed.

(** C4. On the separable dataset negatives = {(-1,-1)}, positives =
    {(1,1)}, from w = (0,0,0), some number n <= 20 of applications of
    [update_weights] leaves no mistake for [eval_perceptron] to report. *)
Theorem toy_dataset_converges :
  exists n w, n <= 20 /\
    epochs n (append_ones toy_negatives) (append_ones toy_positives) toy_w_init
      = Ok w /\
    exists m0 m1,
      eval_perceptron (append_ones toy_negatives) (append_ones toy_positives) w
        = Ok (m0, m1) /\
      length m0 + length m1 = 0.
Proof.
  exists 1, [1%float; 1%float; (-1)%float].
  split; [lia |]. split; [vm_compute; reflexivity |].
  exists [], []. split; [vm_compute; reflexivity | reflexivity].
Qed.

(** ** The training loop: what each block of statements does to the frame *)

Section Training.

Context {K : Scalar}.

Variables neg_examples pos_examples : matrix.
Variable w_gen_feas : vec.

Lemma record_distance_cases (st : frame) :
  (w_gen_feas = [] /\ record_distance w_gen_feas st = (st, Ok tt)) \/
  (w_gen_feas <> [] /\ exists d, norm_diff (cur_w st) w_gen_feas = Ok d /\
     record_distance w_gen_feas st = (append_dist d st, Ok tt)) \/
  (w_gen_feas <> [] /\ exists e, norm_diff (cur_w st) w_gen_feas = Raise e /\
     record_distance w_gen_feas st = (st, Raise e)).
Proof.
  unfold record_distance. destruct w_gen_feas as [| g gs] eqn:Hg; [left; auto |].
  right. unfold bind, gets, lift, modify.
  destruct (norm_diff (cur_w st) (g :: gs)) as [d | e].
  - left. split; [discriminate | exists d; auto].
  - right. split; [discriminate | exists e; auto].
Qed.

(** The evaluation either raises and leaves the frame alone, or records the
    count, prints and calls [plot_perceptron]. *)
Lemma evaluate_and_plot_cases (st : frame) :
  (exists e, eval_perceptron neg_examples pos_examples (cur_w st) = Raise e /\
     evaluate_and_plot neg_examples pos_examples st = (st, Raise e)) \/
  (exists m0 m1 st',
     eval_perceptron neg_examples pos_examples (cur_w st) = Ok (m0, m1) /\
     evaluate_and_plot neg_examples pos_examples st = (st', Ok tt) /\
     iter st' = iter st /\ cur_w st' = cur_w st /\
     num_errs st' = length m0 + length m1 /\
     num_err_history st' = num_err_history st ++ [length m0 + length m1] /\
     w_dist_history st' = w_dist_history st /\
     trace st' = trace st ++
       [EvPrint (iter st) (length m0 + length m1) (cur_w st);
        EvPlot {| plot_neg_examples := neg_examples;
                  plot_pos_examples := pos_examples;
                  plot_mistakes0 := m0;
                  plot_mistakes1 := m1;
                  plot_num_err_history :=
                    num_err_history st ++ [length m0 + length m1];
                  plot_w := cur_w st;
                  plot_w_dist_history := w_dist_history st |}]).
Proof.
  unfold evaluate_and_plot, bind, gets, lift, modify.
  destruct (eval_perceptron neg_examples pos_examples (cur_w st)) as [[m0 m1] | e].
  - right. exists m0, m1. eexists. split; [reflexivity |].
    split; [reflexivity |]. simpl. rewrite <- app_assoc. simpl. repeat split.
  - left. exists e. auto.
Qed.

Lemma epoch_unfold (st : frame) :
  epoch neg_examples pos_examples w_gen_feas st =
  let s0 := log_event (EvUpdate (cur_w st)) (set_iter (iter st + 1) st) in
  match update_weights neg_examples pos_examples (cur_w st) with
  | Raise e => (s0, Raise e)
  | Ok w' =>
      match record_distance w_gen_feas (set_w w' s0) with
      | (s2, Ok _) => evaluate_and_plot neg_examples pos_examples s2
      | (s2, Raise e) => (s2, Raise e)
      end
  end.
Proof.
  unfold epoch, bind, gets, modify, lift; simpl.
  destruct (update_weights neg_examples pos_examples (cur_w st)); reflexivity.
Qed.

(** One turn of the loop up to the call of [plot_perceptron]: it raises
    after the call of [update_weights] is logged, or completes the epoch. *)
Lemma epoch_cases (st : frame) :
  (exists e st',
     epoch neg_examples pos_examples w_gen_feas st = (st', Raise e) /\
     num_err_history st' = num_err_history st /\
     trace st' = trace st ++ [EvUpdate (cur_w st)] /\
     e <> EOFError) \/
  (exists w' m0 m1 dl st',
     update_weights neg_examples pos_examples (cur_w st) = Ok w' /\
     eval_perceptron neg_examples pos_examples w' = Ok (m0, m1) /\
     epoch neg_examples pos_examples w_gen_feas st = (st', Ok tt) /\
     (w_gen_feas = [] /\ dl = [] \/
      w_gen_feas <> [] /\ exists d, norm_diff w' w_gen_feas = Ok d /\ dl = [d]) /\
     iter st' = S (iter st) /\ cur_w st' = w' /\
     num_errs st' = length m0 + length m1 /\
     num_err_history st' = num_err_history st ++ [length m0 + length m1] /\
     w_dist_history st' = w_dist_history st ++ dl /\
     trace st' = trace st ++
       [EvUpdate (cur_w st);
        EvPrint (S (iter st)) (length m0 + length m1) w';
        EvPlot {| plot_neg_examples := neg_examples;
                  plot_pos_examples := pos_examples;
                  plot_mistakes0 := m0;
                  plot_mistakes1 := m1;
                  plot_num_err_history :=
                    num_err_history st ++ [length m0 + length m1];
                  plot_w := w';
                  plot_w_dist_history := w_dist_history st ++ dl |}]).
Proof.
  rewrite epoch_unfold. cbv zeta.
  destruct (update_weights neg_examples pos_examples (cur_w st)) as [w' | e] eqn:Hup.
  2:{ left. do 2 eexists. split; [reflexivity |]. simpl.
      repeat split. eapply update_weights_raise; eauto. }
  match goal with |- context [record_distance _ ?s] => set (s1 := s) end.
  destruct (record_distance_cases s1) as [[Hg H] | [[Hg (d & Hd & H)] | [Hg (e & He & H)]]];
    rewrite H; clear H.
  - destruct (evaluate_and_plot_cases s1)
      as [(e & He & H) | (m0 & m1 & st' & He & H & Hi & Hw & Hn & Hh & Hd & Ht)];
      rewrite H; clear H.
    + left. do 2 eexists. split; [reflexivity |]. simpl.
      repeat split. eapply eval_perceptron_raise; eauto.
    + right. exists w', m0, m1, [], st'. subst s1. simpl in *.
      rewrite app_nil_r, Nat.add_1_r in *.
      repeat (split; [first [assumption | reflexivity | now left] |]).
      rewrite Ht, <- app_assoc. reflexivity.
  - set (s2 := append_dist d s1).
    destruct (evaluate_and_plot_cases s2)
      as [(e & He & H) | (m0 & m1 & st' & He & H & Hi & Hw & Hn & Hh & Hdd & Ht)];
      rewrite H; clear H.
    + left. do 2 eexists. split; [reflexivity |]. simpl.
      repeat split. eapply eval_perceptron_raise; eauto.
    + right. exists w', m0, m1, [d], st'. subst s2 s1. simpl in *.
      rewrite Nat.add_1_r in *.
      repeat (split; [first [assumption | reflexivity
                            | right; split; [assumption | exists d; auto]] |]).
      rewrite Ht, <- app_assoc. reflexivity.
  - left. do 2 eexists. split; [reflexivity |]. simpl.
    repeat split. apply norm_diff_raise in He. subst; discriminate.
Qed.

Lemma while_loop_unfold (keys : list string) (st : frame) :
  while_loop neg_examples pos_examples w_gen_feas keys st =
  if 0 <? num_errs st then
    match epoch neg_examples pos_examples w_gen_feas st with
    | (st1, Ok _) =>
        match keys with
        | [] => (st1, Raise EOFError)
        | key :: keys' =>
            if contains_q key then (log_event (EvInput key) st1, Ok tt)
            else while_loop neg_examples pos_examples w_gen_feas keys'
                            (log_event (EvInput key) st1)
        end
    | (st1, Raise e) => (st1, Raise e)
    end
  else (st, Ok tt).
Proof.
  destruct keys as [| key keys']; simpl; unfold bind at 1, gets at 1;
    destruct (0 <? num_errs st); try reflexivity; unfold bind at 1;
    destruct (epoch neg_examples pos_examples w_gen_feas st) as [st1 [[] | e]];
    try reflexivity.
  unfold bind, modify. destruct (contains_q key); reflexivity.
Qed.

(** The rule of the while loop: [I] holds whenever the test of the loop is
    evaluated, [Q] when the loop is left, by its test, by [break] or by an
    exception. *)
Lemma while_loop_rule (I : frame -> Prop) (Q : frame -> result unit -> Prop) :
  (forall st, I st -> num_errs st = 0 -> Q st (Ok tt)) ->
  (forall st st1 e, I st -> 0 < num_errs st ->
     epoch neg_examples pos_examples w_gen_feas st = (st1, Raise e) ->
     Q st1 (Raise e)) ->
  (forall st st1, I st -> 0 < num_errs st ->
     epoch neg_examples pos_examples w_gen_feas st = (st1, Ok tt) ->
     Q st1 (Raise EOFError)) ->
  (forall st st1 key, I st -> 0 < num_errs st ->
     epoch neg_examples pos_examples w_gen_feas st = (st1, Ok tt) ->
     contains_q key = true -> Q (log_event (EvInput key) st1) (Ok tt)) ->
  (forall st st1 key, I st -> 0 < num_errs st ->
     epoch neg_examples pos_examples w_gen_feas st = (st1, Ok tt) ->
     contains_q key = false -> I (log_event (EvInput key) st1)) ->
  forall keys st st' r, I st ->
    while_loop neg_examples pos_examples w_gen_feas keys st = (st', r) ->
    Q st' r.
Proof.
  intros Hexit Hraise Heof Hquit Hnext.
  induction keys as [| key keys' IH]; intros st st' r HI Hrun;
    rewrite while_loop_unfold in Hrun;
    (destruct (Nat.ltb_spec 0 (num_errs st)) as [Hpos | Hzero];
     [| inversion Hrun; subst; apply Hexit; [assumption | lia]]);
    destruct (epoch neg_examples pos_examples w_gen_feas st)
      as [st1 [[] | e]] eqn:Hep;
    try (inversion Hrun; subst; eauto; fail).
  destruct (contains_q key) eqn:Hq.
  - inversion Hrun; subst. eauto.
  - eapply IH; [| exact Hrun]. eauto.
Qed.

(** The loop only adds to the trace. *)
Lemma while_loop_trace_extends (keys : list string) (st st' : frame)
    (r : result unit) :
  while_loop neg_examples pos_examples w_gen_feas keys st = (st', r) ->
  exists ext, trace st' = trace st ++ ext.
Proof.
  intros Hrun.
  assert (Hgrow : forall s s1 r1,
            epoch neg_examples pos_examples w_gen_feas s = (s1, r1) ->
            exists ext, trace s1 = trace s ++ ext).
  { intros s s1 r1 Hs.
    destruct (epoch_cases s) as [(e & s' & He & _ & Ht & _)
      | (w' & m0 & m1 & dl & s' & _ & _ & He & _ & _ & _ & _ & _ & _ & Ht)];
      rewrite He in Hs; inversion Hs; subst; eauto. }
  eapply while_loop_rule
    with (I := fun s => exists ext, trace s = trace st ++ ext)
         (Q := fun s _ => exists ext, trace s = trace st ++ ext);
    [ | | | | | | exact Hrun]; try (exists []; now rewrite app_nil_r).
  - auto.
  - intros s s1 e [ext Hs] _ Hep. destruct (Hgrow _ _ _ Hep) as [ext1 H1].
    exists (ext ++ ext1). now rewrite H1, Hs, app_assoc.
  - intros s s1 [ext Hs] _ Hep. destruct (Hgrow _ _ _ Hep) as [ext1 H1].
    exists (ext ++ ext1). now rewrite H1, Hs, app_assoc.
  - intros s s1 key [ext Hs] _ Hep _. destruct (Hgrow _ _ _ Hep) as [ext1 H1].
    exists (ext ++ ext1 ++ [EvInput key]). simpl.
    now rewrite H1, Hs, !app_assoc.
  - intros s s1 key [ext Hs] _ Hep _. destruct (Hgrow _ _ _ Hep) as [ext1 H1].
    exists (ext ++ ext1 ++ [EvInput key]). simpl.
    now rewrite H1, Hs, !app_assoc.
Qed.

End Training.

(** ** The runs of [learn_perceptron] *)

Section LearnPerceptron.

Context {K : Scalar}.

Variables neg_examples_nobias pos_examples_nobias : matrix.
Variables w_init w_gen_feas : vec.
Variable randn : num * num * num.

Lemma learn_perceptron_unfold (stdin : list string) :
  learn_perceptron neg_examples_nobias pos_examples_nobias w_init w_gen_feas
                   randn stdin =
  match evaluate_and_plot (append_ones neg_examples_nobias)
                          (append_ones pos_examples_nobias)
                          (initial_frame (initial_weights w_init randn)) with
  | (st1, Raise e) => (st1, Raise e)
  | (st1, Ok _) =>
      match stdin with
      | [] => (st1, Raise EOFError)
      | key :: keys =>
          let st2 := log_event (EvInput key) st1 in
          if contains_q key then (st2, Ok (cur_w st2))
          else
            match record_distance w_gen_feas st2 with
            | (st3, Raise e) => (st3, Raise e)
            | (st3, Ok _) =>
                match while_loop (append_ones neg_examples_nobias)
                                 (append_ones pos_examples_nobias)
                                 w_gen_feas keys st3 with
                | (st4, Ok _) => (st4, Ok (cur_w st4))
                | (st4, Raise e) => (st4, Raise e)
                end
            end
      end
  end.
Proof.
  unfold learn_perceptron.
  unfold bind at 1.
  destruct (evaluate_and_plot (append_ones neg_examples_nobias)
              (append_ones pos_examples_nobias)
              (initial_frame (initial_weights w_init randn)))
    as [st1 [[] | e]]; [| reflexivity].
  destruct stdin as [| key keys]; [reflexivity |].
  unfold bind at 1, modify at 1. cbv zeta.
  destruct (contains_q key); [reflexivity |].
  unfold bind at 1.
  destruct (record_distance w_gen_feas (log_event (EvInput key) st1))
    as [st3 [[] | e]]; [| reflexivity].
  unfold bind at 1.
  destruct (while_loop (append_ones neg_examples_nobias)
              (append_ones pos_examples_nobias) w_gen_feas keys st3)
    as [st4 [[] | e]]; reflexivity.
Qed.

(** The ways a call can go, with the frame at each point: the evaluation of
    epoch 0 raises (A); there is no answer at the first checkpoint (B); the
    answer is to quit (C); the distance to the feasible vector cannot be
    taken (D); the loop is entered (E). *)
Lemma learn_perceptron_cases (stdin : list string) (st : frame) (r : result vec) :
  learn_perceptron neg_examples_nobias pos_examples_nobias w_init w_gen_feas
                   randn stdin = (st, r) ->
  let neg_examples := append_ones neg_examples_nobias in
  let pos_examples := append_ones pos_examples_nobias in
  let w0 := initial_weights w_init randn in
  (exists e, eval_perceptron neg_examples pos_examples w0 = Raise e /\
     st = initial_frame w0 /\ r = Raise e) \/
  exists m0 m1, eval_perceptron neg_examples pos_examples w0 = Ok (m0, m1) /\
    let n := length m0 + length m1 in
    let p0 := {| plot_neg_examples := neg_examples;
                 plot_pos_examples := pos_examples;
                 plot_mistakes0 := m0;
                 plot_mistakes1 := m1;
                 plot_num_err_history := [n];
                 plot_w := w0;
                 plot_w_dist_history := [] |} in
    let checkpoint dl tr :=
      {| iter := 0; cur_w := w0; num_errs := n; num_err_history := [n];
         w_dist_history := dl; trace := [EvPrint 0 n w0; EvPlot p0] ++ tr |} in
    (stdin = [] /\ st = checkpoint [] [] /\ r = Raise EOFError) \/
    exists key keys, stdin = key :: keys /\
      ((contains_q key = true /\ st = checkpoint [] [EvInput key] /\ r = Ok w0) \/
       (contains_q key = false /\
        ((exists e, w_gen_feas <> [] /\ norm_diff w0 w_gen_feas = Raise e /\
            st = checkpoint [] [EvInput key] /\ r = Raise e) \/
         (exists dl rl,
            (w_gen_feas = [] /\ dl = [] \/
             w_gen_feas <> [] /\ exists d, norm_diff w0 w_gen_feas = Ok d /\ dl = [d]) /\
            while_loop neg_examples pos_examples w_gen_feas keys
                       (checkpoint dl [EvInput key]) = (st, rl) /\
            r = match rl with Ok _ => Ok (cur_w st) | Raise e => Raise e end)))).
Proof.
  rewrite learn_perceptron_unfold. cbv zeta.
  unfold evaluate_and_plot, bind, gets, lift, modify. simpl.
  destruct (eval_perceptron (append_ones neg_examples_nobias)
              (append_ones pos_examples_nobias) (initial_weights w_init randn))
    as [[m0 m1] | e];
    [| intros H; inversion H; subst; left; eauto].
  intros H. right. exists m0, m1. split; [reflexivity |]. simpl.
  destruct stdin as [| key keys]; [inversion H; subst; left; auto |].
  right. exists key, keys. split; [reflexivity |].
  destruct (contains_q key); [inversion H; subst; left; auto |].
  right. split; [reflexivity |].
  match type of H with context [record_distance _ ?s] => set (s2 := s) in H end.
  destruct (record_distance_cases w_gen_feas s2)
    as [[Hg E] | [[Hg (d & Hd & E)] | [Hg (e & He & E)]]]; rewrite E in H; clear E.
  - right. exists [].
    destruct (while_loop (append_ones neg_examples_nobias)
                (append_ones pos_examples_nobias) w_gen_feas keys s2)
      as [st4 rl] eqn:Hl.
    assert (Hst : st4 = st /\
              r = match rl with Ok _ => Ok (cur_w st) | Raise e => Raise e end)
      by (destruct rl as [[] | e]; inversion H; subst; auto).
    destruct Hst as [-> ->].
    exists rl. split; [left; auto |]. split; [exact Hl | reflexivity].
  - right. exists [d].
    destruct (while_loop (append_ones neg_examples_nobias)
                (append_ones pos_examples_nobias) w_gen_feas keys
                (append_dist d s2)) as [st4 rl] eqn:Hl.
    assert (Hst : st4 = st /\
              r = match rl with Ok _ => Ok (cur_w st) | Raise e => Raise e end)
      by (destruct rl as [[] | e]; inversion H; subst; auto).
    destruct Hst as [-> ->].
    exists rl. split; [right; split; [assumption | exists d; auto] |].
    split; [exact Hl | reflexivity].
  - left. exists e. inversion H; subst. auto.
Qed.

End LearnPerceptron.

Lemma plots_app {K : Scalar} (tr1 tr2 : list event) :
  plots (tr1 ++ tr2) = plots tr1 ++ plots tr2.
Proof. apply flat_map_app. Qed.

Lemma inputs_app {K : Scalar} (tr1 tr2 : list event) :
  inputs (tr1 ++ tr2) = inputs tr1 ++ inputs tr2.
Proof. apply flat_map_app. Qed.

Lemma updates_app {K : Scalar} (tr1 tr2 : list event) :
  updates (tr1 ++ tr2) = updates tr1 ++ updates tr2.
Proof. apply flat_map_app. Qed.

Section FirstCheckpoint.

Context {K : Scalar}.

Variables neg_examples_nobias pos_examples_nobias : matrix.
Variables w_init w_gen_feas : vec.
Variable randn : num * num * num.

(** A run whose first answer is to quit is a run of case (C). *)
Lemma quit_first_frame (stdin : list string) (st : frame) (r : result vec)
    (key : string) :
  learn_perceptron neg_examples_nobias pos_examples_nobias w_init w_gen_feas
                   randn stdin = (st, r) ->
  hd_error (inputs (trace st)) = Some key ->
  contains_q key = true ->
  r = Ok (initial_weights w_init randn) /\
  iter st = 0 /\
  length (num_err_history st) = 1 /\
  w_dist_history st = [] /\
  updates (trace st) = [].
Proof.
  intros Hrun Hkey Hq.
  apply learn_perceptron_cases in Hrun
    as [(e & _ & -> & _) | (m0 & m1 & _ & Hrun)]; [discriminate |].
  cbv zeta in Hrun.
  destruct Hrun as [(_ & -> & _) | (key' & keys & _ & Hrun)]; [discriminate |].
  destruct Hrun as [(_ & -> & ->) | (Hnq & Hrun)]; [simpl; auto |].
  exfalso.
  destruct Hrun as [(e & _ & _ & -> & _) | (dl & rl & _ & Hloop & _)].
  - simpl in Hkey. congruence.
  - apply while_loop_trace_extends in Hloop as [ext Hext].
    rewrite Hext in Hkey. simpl in Hkey. congruence.
Qed.

(** C6. When the first answer of the interaction collaborator is to quit
    and an initial weight vector was given, [learn_perceptron] returns that
    vector, the error history has exactly one entry and [update_weights]
    has not been called. *)
Theorem quit_at_first_checkpoint (stdin : list string) (st : frame)
    (r : result vec) (key : string) :
  learn_perceptron neg_examples_nobias pos_examples_nobias w_init w_gen_feas
                   randn stdin = (st, r) ->
  w_init <> [] ->
  hd_error (inputs (trace st)) = Some key ->
  contains_q key = true ->
  r = Ok w_init /\
  cur_w st = w_init /\
  length (num_err_history st) = 1 /\
  updates (trace st) = [] /\
  iter st = 0.
Proof.
  intros Hrun Hw Hkey Hq.
  assert (Hcur : r = Ok (cur_w st)).
  { pose proof Hrun as Hc.
    apply learn_perceptron_cases in Hc
      as [(e & _ & -> & _) | (m0 & m1 & _ & Hc)]; [discriminate |].
    cbv zeta in Hc.
    destruct Hc as [(_ & -> & _) | (key' & keys & _ & Hc)]; [discriminate |].
    destruct Hc as [(_ & -> & ->) | (Hnq & Hc)]; [reflexivity |].
    destruct (quit_first_frame _ Hrun Hkey Hq) as (-> & _).
    destruct Hc as [(e & _ & _ & _ & He) | (dl & rl & _ & _ & He)];
      [discriminate |].
    destruct rl; [exact He | discriminate]. }
  destruct (quit_first_frame _ Hrun Hkey Hq) as (Hr & Hi & Hh & _ & Hu).
  assert (Hw0 : initial_weights w_init randn = w_init)
    by (destruct w_init; [contradiction | reflexivity]).
  rewrite Hw0 in Hr. rewrite Hr in Hcur. inversion Hcur as [Hc].
  rewrite <- Hc. auto.
Qed.

(** C10. When the first answer is to quit, [learn_perceptron] returns with
    an error history of one entry and an empty distance history, a feasible
    vector being supplied or not: the initial distance is recorded only
    after an answer to continue. *)
Theorem no_distance_when_quit_first (stdin : list string) (st : frame)
    (r : result vec) (key : string) :
  learn_perceptron neg_examples_nobias pos_examples_nobias w_init w_gen_feas
                   randn stdin = (st, r) ->
  w_gen_feas <> [] ->
  hd_error (inputs (trace st)) = Some key ->
  contains_q key = true ->
  (exists w, r = Ok w) /\
  w_dist_history st = [] /\
  length (num_err_history st) = 1.
Proof.
  intros Hrun _ Hkey Hq.
  destruct (quit_first_frame _ Hrun Hkey Hq) as (Hr & _ & Hh & Hd & _).
  eauto.
Qed.

End FirstCheckpoint.

(** ** Events of a trace that grows at its end *)

Lemma event_in_extension {E : Type} (tr ext pre post : list E) (e : E) :
  tr ++ ext = pre ++ e :: post ->
  (exists post0, tr = pre ++ e :: post0 /\ post = post0 ++ ext) \/
  (exists pre1, pre = tr ++ pre1 /\ ext = pre1 ++ e :: post).
Proof.
  revert pre; induction tr as [| a tr IH]; intros pre H; simpl in *.
  - right. exists pre. auto.
  - destruct pre as [| b pre]; simpl in *.
    + inversion H; subst. left. exists tr. auto.
    + inversion H as [[Hab Hrest]]; subst b.
      destruct (IH _ Hrest) as [(post0 & -> & ->) | (pre1 & -> & ->)].
      * left. exists post0. auto.
      * right. exists pre1. auto.
Qed.

(** A property of every call of [plot_perceptron], given what came before
    it, is kept when the new events are accounted for. *)
Lemma each_plot_extension {K : Scalar} (Q : list event -> plot_args -> Prop)
    (tr ext : list event) :
  (forall pre p post, tr = pre ++ EvPlot p :: post -> Q pre p) ->
  (forall pre1 p post, ext = pre1 ++ EvPlot p :: post -> Q (tr ++ pre1) p) ->
  forall pre p post, tr ++ ext = pre ++ EvPlot p :: post -> Q pre p.
Proof.
  intros Htr Hext pre p post H.
  apply event_in_extension in H as [(post0 & H & _) | (pre1 & -> & H)]; eauto.
Qed.

(** Where an event can sit in an explicit list of events. *)
Ltac events_inversion H :=
  match type of H with
  | [] = ?pre ++ _ :: _ => exfalso; exact (app_cons_not_nil _ _ _ H)
  | _ :: _ = ?pre ++ _ :: _ =>
      let e0 := fresh "e" in
      let pre0 := fresh "pre" in
      let Hhd := fresh "Hhd" in
      destruct pre as [| e0 pre0]; simpl in H;
      [ try discriminate H
      | injection H as Hhd H; subst e0; events_inversion H ]
  | _ => idtac
  end.

Section ErrorHistory.

Context {K : Scalar}.

Variables neg_examples pos_examples : matrix.
Variable w_gen_feas : vec.

Lemma while_loop_history (keys : list string) (st st' : frame) (r : result unit) :
  plot_history_ok st -> history_ok st ->
  while_loop neg_examples pos_examples w_gen_feas keys st = (st', r) ->
  plot_history_ok st' /\ (r = Ok tt -> history_ok st').
Proof.
  intros HP HH Hrun.
  eapply while_loop_rule
    with (I := fun s => plot_history_ok s /\ history_ok s)
         (Q := fun s r => plot_history_ok s /\ (r = Ok tt -> history_ok s));
    [ | | | | | | exact Hrun]; [ | | | | | split; assumption].
  - intros s [HPs HHs] _. auto.
  - intros s s1 e [HPs HHs] _ Hep.
    destruct (epoch_cases neg_examples pos_examples w_gen_feas s)
      as [(e' & s' & He & _ & Ht & Hne)
         | (w' & m0 & m1 & dl & s' & _ & _ & He & _)];
      rewrite He in Hep; inversion Hep; subst.
    split; [| discriminate].
    unfold plot_history_ok. rewrite Ht.
    apply each_plot_extension; [exact HPs |].
    intros pre1 p post E. events_inversion E.
  - intros s s1 [HPs [HHl HHi]] _ Hep.
    destruct (epoch_cases neg_examples pos_examples w_gen_feas s)
      as [(e' & s' & He & _ & Ht & Hne)
         | (w' & m0 & m1 & dl & s' & _ & _ & He & _ & Hi & _ & _ & Hh & _ & Ht)];
      rewrite He in Hep; inversion Hep; subst.
    split; [| discriminate].
    unfold plot_history_ok. rewrite Ht.
    apply each_plot_extension; [exact HPs |].
    intros pre1 p post E. events_inversion E.
    inversion E; subst; simpl.
    rewrite updates_app, !length_app; simpl. lia.
  - intros s s1 key [HPs [HHl HHi]] _ Hep _.
    destruct (epoch_cases neg_examples pos_examples w_gen_feas s)
      as [(e' & s' & He & _ & Ht & Hne)
         | (w' & m0 & m1 & dl & s' & _ & _ & He & _ & Hi & _ & _ & Hh & _ & Ht)];
      rewrite He in Hep; inversion Hep; subst.
    split.
    + unfold plot_history_ok. simpl. rewrite Ht, <- app_assoc.
      apply each_plot_extension; [exact HPs |].
      intros pre1 p post E. simpl in E. events_inversion E.
      inversion E; subst; simpl.
      rewrite updates_app, !length_app; simpl. lia.
    + intros _. unfold history_ok. simpl. rewrite Ht, Hh, Hi.
      rewrite !updates_app, !length_app; simpl. lia.
  - intros s s1 key [HPs [HHl HHi]] _ Hep _.
    destruct (epoch_cases neg_examples pos_examples w_gen_feas s)
      as [(e' & s' & He & _ & Ht & Hne)
         | (w' & m0 & m1 & dl & s' & _ & _ & He & _ & Hi & _ & _ & Hh & _ & Ht)];
      rewrite He in Hep; inversion Hep; subst.
    split.
    + unfold plot_history_ok. simpl. rewrite Ht, <- app_assoc.
      apply each_plot_extension; [exact HPs |].
      intros pre1 p post E. simpl in E. events_inversion E.
      inversion E; subst; simpl.
      rewrite updates_app, !length_app; simpl. lia.
    + unfold history_ok. simpl. rewrite Ht, Hh, Hi.
      rewrite !updates_app, !length_app; simpl. lia.
Qed.

End ErrorHistory.

Section HistoryLength.

Context {K : Scalar}.

Variables neg_examples_nobias pos_examples_nobias : matrix.
Variables w_init w_gen_feas : vec.
Variable randn : num * num * num.

(** C5. In every run, the error history handed to a call of
    [plot_perceptron] made after N calls of [update_weights] has N + 1
    entries (the evaluation of epoch 0 and one per epoch since), and so has
    the error history when [learn_perceptron] returns, N being [iter]. *)
Theorem error_history_length (stdin : list string) (st : frame) (r : result vec) :
  learn_perceptron neg_examples_nobias pos_examples_nobias w_init w_gen_feas
                   randn stdin = (st, r) ->
  (forall pre p post, trace st = pre ++ EvPlot p :: post ->
     length (plot_num_err_history p) = S (length (updates pre))) /\
  (forall w, r = Ok w ->
     length (num_err_history st) = S (length (updates (trace st))) /\
     iter st = length (updates (trace st))).
Proof.
  intros Hrun.
  apply learn_perceptron_cases in Hrun
    as [(e & _ & -> & ->) | (m0 & m1 & _ & Hrun)].
  { split; [| discriminate]. intros pre p post E. simpl in E.
    events_inversion E. }
  cbv zeta in Hrun.
  destruct Hrun as [(_ & -> & ->) | (key & keys & _ & Hrun)].
  { split; [| discriminate]. intros pre p post E. simpl in E.
    events_inversion E. inversion E; subst. reflexivity. }
  destruct Hrun as [(_ & -> & ->) | (_ & Hrun)].
  { split; [| intros w _; simpl; auto]. intros pre p post E. simpl in E.
    events_inversion E. inversion E; subst. reflexivity. }
  destruct Hrun as [(e & _ & _ & -> & ->) | (dl & rl & _ & Hloop & ->)].
  { split; [| discriminate]. intros pre p post E. simpl in E.
    events_inversion E. inversion E; subst. reflexivity. }
  apply while_loop_history in Hloop as [HP HH].
  - split; [exact HP |]. intros w Hw.
    destruct rl as [[] | e]; [apply HH; reflexivity | discriminate].
  - intros pre p post E. simpl in E.
    events_inversion E. inversion E; subst. reflexivity.
  - split; reflexivity.
Qed.

End HistoryLength.

(** ** The distance history *)

Lemma hd_error_app {A} (l l' : list A) (x : A) :
  hd_error l = Some x -> hd_error (l ++ l') = Some x.
Proof. destruct l; simpl; [discriminate | auto]. Qed.

Section DistanceHistory.

Context {K : Scalar}.

Variables neg_examples pos_examples : matrix.
Variables w0 w_gen_feas : vec.
Hypothesis feasible_supplied : w_gen_feas <> [].

Lemma epoch_plot_distance (s s1 : frame) (tail : list event) :
  plot_distance_ok w0 w_gen_feas s -> distance_ok w0 w_gen_feas s ->
  epoch neg_examples pos_examples w_gen_feas s = (s1, Ok tt) ->
  (forall pre1 p post, tail = pre1 ++ EvPlot p :: post -> False) ->
  (forall s2, trace s2 = trace s1 ++ tail -> plot_distance_ok w0 w_gen_feas s2) /\
  (forall s2, trace s2 = trace s1 ++ tail ->
     w_dist_history s2 = w_dist_history s1 ->
     updates tail = [] -> distance_ok w0 w_gen_feas s2).
Proof.
  intros HP (d0 & rest & key & Hd0 & Hrest & Hlen & Hkey & Hq) Hep Htail.
  destruct (epoch_cases neg_examples pos_examples w_gen_feas s)
    as [(e' & s' & He & _ & _ & _)
       | (w' & m0 & m1 & dl & s' & _ & _ & He & Hdl & _ & _ & _ & _ & Hd & Ht)];
    rewrite He in Hep; inversion Hep; subst.
  destruct Hdl as [[Hg _] | (_ & d & _ & ->)]; [contradiction |].
  split.
  - intros s2 H2. unfold plot_distance_ok. rewrite H2, Ht, <- app_assoc.
    apply each_plot_extension; [exact HP |].
    intros pre1 p post E. simpl in E. events_inversion E.
    + inversion E; subst; simpl. split.
      * rewrite updates_app. simpl. intros H. apply app_eq_nil in H as [_ H].
        discriminate.
      * intros _. exists d0, (rest ++ [d]), key. rewrite Hrest.
        repeat split; try assumption.
        -- rewrite updates_app, !length_app; simpl. lia.
        -- rewrite inputs_app. apply hd_error_app. exact Hkey.
    + exfalso. eapply Htail. exact E.
  - intros s2 H2 Hd2 Hu. exists d0, (rest ++ [d]), key.
    rewrite Hd2, Hd, Hrest, H2, Ht. repeat split; try assumption.
    + rewrite !updates_app, Hu, !length_app; simpl. lia.
    + rewrite !inputs_app, <- app_assoc. apply hd_error_app. exact Hkey.
Qed.

Lemma while_loop_distance (keys : list string) (st st' : frame) (r : result unit) :
  plot_distance_ok w0 w_gen_feas st -> distance_ok w0 w_gen_feas st ->
  while_loop neg_examples pos_examples w_gen_feas keys st = (st', r) ->
  plot_distance_ok w0 w_gen_feas st'.
Proof.
  intros HP HD Hrun.
  eapply while_loop_rule
    with (I := fun s => plot_distance_ok w0 w_gen_feas s /\ distance_ok w0 w_gen_feas s)
         (Q := fun s _ => plot_distance_ok w0 w_gen_feas s);
    [ | | | | | | exact Hrun]; [ | | | | | split; assumption].
  - intros s [HPs _] _. exact HPs.
  - intros s s1 e [HPs _] _ Hep.
    destruct (epoch_cases neg_examples pos_examples w_gen_feas s)
      as [(e' & s' & He & _ & Ht & Hne)
         | (w' & m0 & m1 & dl & s' & _ & _ & He & _)];
      rewrite He in Hep; inversion Hep; subst.
    unfold plot_distance_ok. rewrite Ht.
    apply each_plot_extension; [exact HPs |].
    intros pre1 p post E. events_inversion E.
  - intros s s1 [HPs HDs] _ Hep.
    destruct (epoch_plot_distance (tail := []) HPs HDs Hep) as [H _].
    + intros pre1 p post E. events_inversion E.
    + apply H. now rewrite app_nil_r.
  - intros s s1 key [HPs HDs] _ Hep _.
    destruct (epoch_plot_distance (tail := [EvInput key]) HPs HDs Hep) as [H _].
    + intros pre1 p post E. events_inversion E.
    + apply H. reflexivity.
  - intros s s1 key [HPs HDs] _ Hep _.
    destruct (epoch_plot_distance (tail := [EvInput key]) HPs HDs Hep) as [H1 H2].
    + intros pre1 p post E. events_inversion E.
    + split; [apply H1 | apply H2]; reflexivity.
Qed.

End DistanceHistory.

Section DistanceAtPlots.

Context {K : Scalar}.

Variables neg_examples_nobias pos_examples_nobias : matrix.
Variables w_init w_gen_feas : vec.
Variable randn : num * num * num.

(** C9, as the code has it. With a feasible vector supplied, the call of
    [plot_perceptron] of epoch 0 (no call of [update_weights] before it) is
    made before any answer is read and receives an empty distance history;
    every later call is made after a first answer to continue and receives a
    distance history whose first entry is the distance from the initial
    weight vector and which has one entry more than there were calls of
    [update_weights]. *)
Theorem distance_recorded_after_first_answer (stdin : list string) (st : frame)
    (r : result vec) :
  learn_perceptron neg_examples_nobias pos_examples_nobias w_init w_gen_feas
                   randn stdin = (st, r) ->
  w_gen_feas <> [] ->
  forall pre p post, trace st = pre ++ EvPlot p :: post ->
    (updates pre = [] -> plot_w_dist_history p = [] /\ inputs pre = []) /\
    (updates pre <> [] ->
     exists d0 rest key,
       norm_diff (initial_weights w_init randn) w_gen_feas = Ok d0 /\
       plot_w_dist_history p = d0 :: rest /\
       length rest = length (updates pre) /\
       hd_error (inputs pre) = Some key /\ contains_q key = false).
Proof.
  intros Hrun Hg.
  change (plot_distance_ok (initial_weights w_init randn) w_gen_feas st).
  assert (Hfirst : forall n p0 tail,
            (forall pre1 p post, tail = pre1 ++ EvPlot p :: post -> False) ->
            plot_w_dist_history p0 = [] ->
            forall pre p post,
              EvPrint 0 n (initial_weights w_init randn) :: EvPlot p0 :: tail
                = pre ++ EvPlot p :: post ->
              (updates pre = [] -> plot_w_dist_history p = [] /\ inputs pre = []) /\
              (updates pre <> [] ->
               exists d0 rest key,
                 norm_diff (initial_weights w_init randn) w_gen_feas = Ok d0 /\
                 plot_w_dist_history p = d0 :: rest /\
                 length rest = length (updates pre) /\
                 hd_error (inputs pre) = Some key /\ contains_q key = false)).
  { intros n p0 tail Htail Hp0 pre p post E. events_inversion E.
    - inversion E; subst. simpl. split; [auto | congruence].
    - exfalso. eapply Htail. exact E. }
  apply learn_perceptron_cases in Hrun
    as [(e & _ & -> & ->) | (m0 & m1 & _ & Hrun)].
  { intros pre p post E. simpl in E. events_inversion E. }
  cbv zeta in Hrun.
  destruct Hrun as [(_ & -> & ->) | (key & keys & _ & Hrun)].
  { intros pre p post E. simpl in E. revert E. apply Hfirst; [| reflexivity].
    intros pre1 p1 post1 E1. events_inversion E1. }
  destruct Hrun as [(_ & -> & ->) | (Hq & Hrun)].
  { intros pre p post E. simpl in E. revert E. apply Hfirst; [| reflexivity].
    intros pre1 p1 post1 E1. events_inversion E1. }
  destruct Hrun as [(e & _ & _ & -> & ->) | (dl & rl & Hdl & Hloop & ->)].
  { intros pre p post E. simpl in E. revert E. apply Hfirst; [| reflexivity].
    intros pre1 p1 post1 E1. events_inversion E1. }
  destruct Hdl as [[Hnil _] | (_ & d & Hd & ->)]; [contradiction |].
  eapply while_loop_distance; [exact Hg | | | exact Hloop].
  - intros pre p post E. simpl in E. revert E. apply Hfirst; [| reflexivity].
    intros pre1 p1 post1 E1. events_inversion E1.
  - exists d, [], key. simpl. auto.
Qed.

End DistanceAtPlots.

(** ** Shapes *)

Section Shapes.

Context {K : Scalar}.

(** A loop of [eval_perceptron] raises ValueError when a row does not have
    as many entries as [w], and raises nothing when every row has. *)
Lemma collect_mistakes_outcome (test : num -> bool) (w : vec)
    (examples pre : matrix) (acc : list nat) :
  let loop :=
    for_each (seq (length pre) (length examples)) (fun i acc =>
      rbind (getitem (pre ++ examples) i) (fun x =>
      rbind (dot x w) (fun activation =>
      if test activation then Ok (acc ++ [i]) else Ok acc))) acc in
  (Forall (fun x => length x = length w) examples -> exists m, loop = Ok m) /\
  (Exists (fun x => length x <> length w) examples -> loop = Raise ValueError).
Proof.
  revert pre acc; induction examples as [| x rest IH]; intros pre acc; simpl.
  - split; [eauto | intros H; inversion H].
  - unfold getitem at 1 3. rewrite nth_error_app2, Nat.sub_diag by lia. simpl.
    specialize (IH (pre ++ [x])).
    rewrite length_app, Nat.add_1_r, <- app_assoc in IH. simpl in IH.
    destruct (Nat.eq_dec (length x) (length w)) as [Heq | Hne].
    + unfold dot at 1 3. rewrite Heq, Nat.eqb_refl. simpl.
      match goal with |- context [if ?c then _ else _] => destruct c end; simpl;
        (split; [intros H; inversion H; subst; now apply IH
                | intros H; inversion H; subst; [contradiction | now apply IH]]).
    + rewrite (dot_mismatch _ _ Hne). simpl. split; [| reflexivity].
      intros H; inversion H; subst. contradiction.
Qed.

Lemma eval_perceptron_shape_mismatch (neg_examples pos_examples : matrix) (w : vec) :
  Exists (fun x => length x <> length w) (neg_examples ++ pos_examples) ->
  eval_perceptron neg_examples pos_examples w = Raise ValueError.
Proof.
  intros H. unfold eval_perceptron, for_range.
  destruct (collect_mistakes_outcome (fun a => leb zero a) w neg_examples [] [])
    as [Hok0 Hbad0].
  destruct (collect_mistakes_outcome (fun a => ltb a zero) w pos_examples [] [])
    as [Hok1 Hbad1].
  simpl in *.
  destruct (Forall_Exists_dec (fun x => length x = length w)
              (fun x => Nat.eq_dec (length x) (length w)) neg_examples)
    as [Hall | Hex].
  - destruct (Hok0 Hall) as [m0 ->]. simpl.
    apply Exists_app in H as [H | H].
    + exfalso. apply Exists_exists in H as (x & Hin & Hne).
      rewrite Forall_forall in Hall. auto.
    + rewrite (Hbad1 H). reflexivity.
  - rewrite (Hbad0 Hex). reflexivity.
Qed.

(** When every row has as many entries as [w], no product of
    [eval_perceptron] fails. *)
Lemma eval_perceptron_rows_agree (neg_examples pos_examples : matrix) (w : vec) :
  Forall (fun x => length x = length w) (neg_examples ++ pos_examples) ->
  exists m0 m1, eval_perceptron neg_examples pos_examples w = Ok (m0, m1).
Proof.
  intros Hall. apply Forall_app in Hall as [Hneg Hpos].
  unfold eval_perceptron, for_range.
  destruct (collect_mistakes_outcome (fun a => leb zero a) w neg_examples [] [])
    as [Hok0 _].
  destruct (collect_mistakes_outcome (fun a => ltb a zero) w pos_examples [] [])
    as [Hok1 _].
  simpl in *.
  destruct (Hok0 Hneg) as [m0 ->]. destruct (Hok1 Hpos) as [m1 ->].
  simpl. eauto.
Qed.

(** Two columns of different lengths, neither of length one, cannot be
    broadcast together. *)
Lemma broadcast_shape_mismatch (op : num -> num -> num) (a b : vec) :
  length a <> length b -> length a <> 1 -> length b <> 1 ->
  broadcast op a b = Raise ValueError.
Proof.
  intros Hab Ha Hb. unfold broadcast.
  destruct (length a =? length b) eqn:E; [apply Nat.eqb_eq in E; contradiction |].
  destruct b as [| b0 [| b1 b]]; destruct a as [| a0 [| a1 a]];
    simpl in *; try reflexivity; contradiction.
Qed.

Lemma norm_diff_shape_mismatch (w g : vec) :
  length w <> length g -> length w <> 1 -> length g <> 1 ->
  norm_diff w g = Raise ValueError.
Proof.
  intros Hwg Hw Hg. unfold norm_diff.
  rewrite (broadcast_shape_mismatch sub w g Hwg Hw Hg). reflexivity.
Qed.

Variables neg_examples_nobias pos_examples_nobias : matrix.
Variables w_init w_gen_feas : vec.
Variable randn : num * num * num.

(** C8, as the code has it. [learn_perceptron] checks no shape itself; the
    shape failures of a run are NumPy's ValueError, and they depend on the
    weight vector in use, not on the numbers 2 and 3.

    Rows: when some row of the negatives or of the positives does not have
    one raw column less than the weight vector in use has components (with
    three weights: not exactly two raw columns), the evaluation of epoch 0
    raises ValueError: nothing has been printed, plotted or asked, and
    [update_weights] has not been called.

    Feasible vector: when every row agrees with the weight vector in use
    and a feasible vector is supplied whose number of components is neither
    that of the weight vector nor one (the weight vector having more than
    one component), the evaluation and the plot of epoch 0 are made and the
    first answer is read; if that answer is to continue, taking the initial
    distance raises ValueError, before any call of [update_weights] and
    with nothing recorded in the distance history. *)
Theorem shape_mismatch_raises_ValueError :
  (forall stdin : list string,
     Exists (fun row => S (length row) <> length (initial_weights w_init randn))
            (neg_examples_nobias ++ pos_examples_nobias) ->
     learn_perceptron neg_examples_nobias pos_examples_nobias w_init w_gen_feas
                      randn stdin
     = (initial_frame (initial_weights w_init randn), Raise ValueError)) /\
  (forall (key : string) (keys : list string),
     Forall (fun row => S (length row) = length (initial_weights w_init randn))
            (neg_examples_nobias ++ pos_examples_nobias) ->
     w_gen_feas <> [] ->
     length w_gen_feas <> length (initial_weights w_init randn) ->
     length w_gen_feas <> 1 ->
     length (initial_weights w_init randn) <> 1 ->
     contains_q key = false ->
     exists st : frame,
       learn_perceptron neg_examples_nobias pos_examples_nobias w_init w_gen_feas
                        randn (key :: keys)
       = (st, Raise ValueError) /\
       length (plots (trace st)) = 1 /\
       inputs (trace st) = [key] /\
       updates (trace st) = [] /\
       w_dist_history st = [] /\
       iter st = 0).
Proof.
  split.
  - intros stdin H.
    assert (Hev : eval_perceptron (append_ones neg_examples_nobias)
                    (append_ones pos_examples_nobias)
                    (initial_weights w_init randn) = Raise ValueError).
    { apply eval_perceptron_shape_mismatch.
      unfold append_ones. rewrite <- map_app. apply Exists_exists.
      apply Exists_exists in H as (row & Hin & Hne).
      exists (row ++ [one]).
      split; [exact (in_map (fun r : vec => r ++ [one]) _ _ Hin) |].
      rewrite length_app, Nat.add_1_r. exact Hne. }
    destruct (learn_perceptron neg_examples_nobias pos_examples_nobias w_init
                w_gen_feas randn stdin) as [st r] eqn:Hrun.
    apply learn_perceptron_cases in Hrun
      as [(e & He & -> & ->) | (m0 & m1 & He & _)];
      rewrite Hev in He.
    + inversion He; subst. reflexivity.
    + discriminate.
  - intros key keys Hrows Hg Hlen Hg1 Hw1 Hq.
    assert (Hev : exists m0 m1,
              eval_perceptron (append_ones neg_examples_nobias)
                (append_ones pos_examples_nobias)
                (initial_weights w_init randn) = Ok (m0, m1)).
    { apply eval_perceptron_rows_agree.
      unfold append_ones. rewrite <- map_app. apply Forall_forall.
      intros x Hin. apply in_map_iff in Hin as (row & <- & Hin).
      rewrite Forall_forall in Hrows.
      rewrite length_app, Nat.add_1_r. exact (Hrows row Hin). }
    assert (Hd : norm_diff (initial_weights w_init randn) w_gen_feas
                 = Raise ValueError).
    { apply norm_diff_shape_mismatch; [| exact Hw1 | exact Hg1].
      intros E. apply Hlen. symmetry. exact E. }
    destruct (learn_perceptron neg_examples_nobias pos_examples_nobias w_init
                w_gen_feas randn (key :: keys)) as [st r] eqn:Hrun.
    exists st.
    apply learn_perceptron_cases in Hrun
      as [(e & He & _ & _) | (m0 & m1 & _ & Hrun)].
    { destruct Hev as (m0 & m1 & Hev). rewrite Hev in He. discriminate. }
    cbv zeta in Hrun.
    destruct Hrun as [(Hs & _) | (key' & keys' & Hs & Hrun)]; [discriminate |].
    injection Hs as <- <-.
    destruct Hrun as [(Hq' & _) | (_ & Hrun)];
      [rewrite Hq in Hq'; discriminate |].
    destruct Hrun as [(e & _ & He & -> & ->) | (dl & rl & Hdl & _)].
    + rewrite Hd in He. inversion He; subst e.
      split; [reflexivity |]. simpl. repeat split; reflexivity.
    + exfalso.
      destruct Hdl as [(Hg' & _) | (_ & d & Hd' & _)]; [exact (Hg Hg') |].
      rewrite Hd in Hd'. discriminate.
Qed.

End Shapes.

(** ** Inputs of the shapes of the data model raise no shape error *)

Section WellShaped.

Context {K : Scalar}.

Variables neg_examples pos_examples : matrix.
Variable w_gen_feas : vec.
Variable n : nat.

Hypothesis rows_ok :
  Forall (fun x => length x = n) (neg_examples ++ pos_examples).
Hypothesis feasible_ok : w_gen_feas = [] \/ length w_gen_feas = n.

Lemma eval_perceptron_well_shaped (w : vec) :
  length w = n ->
  exists m0 m1, eval_perceptron neg_examples pos_examples w = Ok (m0, m1).
Proof.
  intros Hw. pose proof rows_ok as Hall. rewrite <- Hw in Hall.
  apply Forall_app in Hall as [Hneg Hpos].
  unfold eval_perceptron, for_range.
  destruct (collect_mistakes_outcome (fun a => leb zero a) w neg_examples [] [])
    as [Hok0 _].
  destruct (collect_mistakes_outcome (fun a => ltb a zero) w pos_examples [] [])
    as [Hok1 _].
  simpl in *.
  destruct (Hok0 Hneg) as [m0 ->]. destruct (Hok1 Hpos) as [m1 ->].
  simpl. eauto.
Qed.

Lemma record_distance_well_shaped (s : frame) :
  length (cur_w s) = n ->
  exists s1, record_distance w_gen_feas s = (s1, Ok tt) /\
             cur_w s1 = cur_w s.
Proof.
  intros Hw.
  destruct (record_distance_cases w_gen_feas s)
    as [[_ H] | [[_ (d & _ & H)] | [Hg (e & He & _)]]].
  - exists s. auto.
  - exists (append_dist d s). auto.
  - exfalso. destruct feasible_ok as [Hnil | Hlen]; [contradiction |].
    destruct (@norm_diff_same_length _ (cur_w s) w_gen_feas) as [d Hd];
      [congruence | congruence].
Qed.

Lemma evaluate_and_plot_well_shaped (s : frame) :
  length (cur_w s) = n ->
  exists s1, evaluate_and_plot neg_examples pos_examples s = (s1, Ok tt) /\
             cur_w s1 = cur_w s.
Proof.
  intros Hw.
  destruct (evaluate_and_plot_cases neg_examples pos_examples s)
    as [(e & He & _) | (m0 & m1 & s1 & _ & H & _ & Hc & _)].
  - destruct (eval_perceptron_well_shaped _ Hw) as (m0 & m1 & Hev). congruence.
  - exists s1. auto.
Qed.

Lemma epoch_well_shaped (s : frame) :
  length (cur_w s) = n ->
  exists s1, epoch neg_examples pos_examples w_gen_feas s = (s1, Ok tt) /\
             length (cur_w s1) = n.
Proof.
  intros Hw. rewrite epoch_unfold. cbv zeta.
  destruct (@update_weights_well_shaped _ neg_examples pos_examples (cur_w s))
    as (w' & -> & Hl).
  { eapply Forall_impl; [| exact rows_ok]. simpl. intros x Hx.
    exact (eq_trans Hx (eq_sym Hw)). }
  match goal with |- context [record_distance _ ?s0] => set (s1 := s0) end.
  assert (Hw1 : length (cur_w s1) = n) by (subst s1; simpl; congruence).
  destruct (record_distance_well_shaped _ Hw1) as (s2 & -> & Hc2).
  assert (Hw2 : length (cur_w s2) = n) by congruence.
  destruct (evaluate_and_plot_well_shaped _ Hw2) as (s3 & -> & Hc3).
  exists s3. split; [reflexivity | congruence].
Qed.

Lemma while_loop_well_shaped (keys : list string) (st st' : frame)
    (r : result unit) :
  length (cur_w st) = n ->
  while_loop neg_examples pos_examples w_gen_feas keys st = (st', r) ->
  r = Ok tt \/ r = Raise EOFError.
Proof.
  intros Hw Hrun.
  eapply while_loop_rule
    with (I := fun s => length (cur_w s) = n)
         (Q := fun _ r => r = Ok tt \/ r = Raise EOFError);
    [ | | | | | exact Hw | exact Hrun]; auto.
  - intros s s1 e Hs _ Hep.
    destruct (epoch_well_shaped _ Hs) as (s2 & H2 & _). congruence.
  - intros s s1 key Hs _ Hep _.
    destruct (epoch_well_shaped _ Hs) as (s2 & H2 & Hl).
    rewrite H2 in Hep. inversion Hep; subst. exact Hl.
Qed.

End WellShaped.

(** ** Halting *)

Lemma nth_error_snoc {A} (l : list A) (x y : A) (k : nat) :
  nth_error (l ++ [x]) k = Some y ->
  k < length l /\ nth_error l k = Some y \/ k = length l /\ y = x.
Proof.
  intros H. destruct (Nat.lt_ge_cases k (length l)) as [Hlt | Hge].
  - left. rewrite nth_error_app1 in H by exact Hlt. auto.
  - right. rewrite nth_error_app2 in H by exact Hge.
    destruct (k - length l) as [| j] eqn:Hk; simpl in H.
    + inversion H. split; [lia | reflexivity].
    + destruct j; discriminate.
Qed.

Section Halting.

Context {K : Scalar}.

Variable w_gen_feas : vec.

(** Left by its test. *)
Lemma halting_exit_zero (s : frame) :
  loop_head_ok s -> num_errs s = 0 -> halting_ok w_gen_feas s (Ok (cur_w s)).
Proof.
  intros (HP & HK & (pn & kn & [Hpn Hkn] & Hw & He & Hq) & Hist) Hz.
  assert (Hlast : forall k p key, checkpoint s k p key ->
            plot_errs p = 0 \/ contains_q key = true ->
            k = length (updates (trace s)) /\ p = pn /\ key = kn).
  { intros k p key [Hp Hk] Hstop.
    assert (Hlt : k < length (plots (trace s))) by (apply nth_error_Some; congruence).
    destruct (Nat.eq_dec k (length (updates (trace s)))) as [-> | Hne].
    - split; [reflexivity |]. split; congruence.
    - destruct (Hist k p key) as (Hpos & Hnq & _); [lia | split; assumption |].
      destruct Hstop; [lia | congruence]. }
  repeat split.
  - apply Hlast in H as (-> & _ & _); assumption.
  - apply Hlast in H as (-> & _ & _); auto.
  - apply Hlast in H as (_ & -> & _); [| assumption]. left. now rewrite Hw.
  - intros k p key [Hp Hk] Hpos Hnq. left.
    assert (Hlt : k < length (plots (trace s))) by (apply nth_error_Some; congruence).
    destruct (Nat.eq_dec k (length (updates (trace s)))) as [-> | Hne].
    + rewrite Hpn in Hp. inversion Hp; subst. lia.
    + destruct (Hist k p key) as (_ & _ & Hu); [lia | split; assumption |].
      split; [exact Hu | left; lia].
  - inversion H; reflexivity.
  - inversion H; subst. exists (length (updates (trace s))), pn, kn.
    repeat split; auto. left. lia.
Qed.

(** Left by an exception of the epoch, or for want of an answer. *)
Lemma halting_raise (s s1 : frame) (extra : list plot_args) (e : exn) :
  loop_head_ok s -> 0 < num_errs s ->
  plots (trace s1) = plots (trace s) ++ extra ->
  inputs (trace s1) = inputs (trace s) ->
  updates (trace s1) = updates (trace s) ++ [cur_w s] ->
  e <> EOFError \/ extra <> [] ->
  halting_ok w_gen_feas s1 (Raise e).
Proof.
  intros (HP & HK & (pn & kn & [Hpn Hkn] & Hw & He & Hq) & Hist)
         Hpos HP1 HK1 HU1 Hwhy.
  assert (Hold : forall k p key, checkpoint s1 k p key ->
            checkpoint s k p key /\ 0 < plot_errs p /\ contains_q key = false /\
            nth_error (updates (trace s1)) k = Some (plot_w p)).
  { intros k p key [Hp Hk]. rewrite HK1 in Hk.
    assert (Hlt : k < length (inputs (trace s))) by (apply nth_error_Some; congruence).
    rewrite HP1, nth_error_app1 in Hp by lia.
    split; [split; assumption |].
    destruct (Nat.eq_dec k (length (updates (trace s)))) as [-> | Hne].
    - rewrite Hpn in Hp. inversion Hp; subst p.
      rewrite Hkn in Hk. inversion Hk; subst key.
      rewrite HU1, nth_error_app2, Nat.sub_diag by lia. simpl.
      repeat split; [lia | assumption | now rewrite Hw].
    - destruct (Hist k p key) as (Hp0 & Hnq & Hu); [lia | split; assumption |].
      rewrite HU1, nth_error_app1 by lia. auto. }
  repeat split.
  - apply Hold in H as (_ & Hp0 & Hnq & _). destruct H0; [lia | congruence].
  - apply Hold in H as (_ & Hp0 & Hnq & _). destruct H0; [lia | congruence].
  - apply Hold in H as (_ & Hp0 & Hnq & _). destruct H0; [lia | congruence].
  - intros k p key Hc _ _. left. apply Hold in Hc as ([_ Hk] & _ & _ & Hu).
    split; [exact Hu |].
    destruct Hwhy as [Hne | Hex]; [right; eauto |]. left.
    assert (Hlt : k < length (inputs (trace s))) by (apply nth_error_Some; congruence).
    rewrite HP1, length_app. destruct extra; [contradiction | simpl; lia].
  - discriminate.
  - discriminate.
Qed.

(** Left by [break]. *)
Lemma halting_quit (s s1 : frame) (p' : plot_args) (key' : string) :
  loop_head_ok s -> 0 < num_errs s ->
  plots (trace s1) = plots (trace s) ++ [p'] ->
  inputs (trace s1) = inputs (trace s) ++ [key'] ->
  updates (trace s1) = updates (trace s) ++ [cur_w s] ->
  plot_w p' = cur_w s1 -> contains_q key' = true ->
  halting_ok w_gen_feas s1 (Ok (cur_w s1)).
Proof.
  intros (HP & HK & (pn & kn & [Hpn Hkn] & Hw & He & Hq) & Hist)
         Hpos HP1 HK1 HU1 Hw' Hq'.
  assert (Hcases : forall k p key, checkpoint s1 k p key ->
            (0 < plot_errs p /\ contains_q key = false /\
             nth_error (updates (trace s1)) k = Some (plot_w p) /\
             k <= length (updates (trace s))) \/
            (k = S (length (updates (trace s))) /\ p = p' /\ key = key')).
  { intros k p key [Hp Hk]. rewrite HK1 in Hk. rewrite HP1 in Hp.
    apply nth_error_snoc in Hk as [[Hlt Hk] | [-> ->]].
    - left. rewrite nth_error_app1 in Hp by lia.
      destruct (Nat.eq_dec k (length (updates (trace s)))) as [-> | Hne].
      + rewrite Hpn in Hp. inversion Hp; subst p.
        rewrite Hkn in Hk. inversion Hk; subst key.
        rewrite HU1, nth_error_app2, Nat.sub_diag by lia. simpl.
        repeat split; [lia | assumption | now rewrite Hw | lia].
      + destruct (Hist k p key) as (Hp0 & Hnq & Hu); [lia | split; assumption |].
        rewrite HU1, nth_error_app1 by lia. repeat split; auto. lia.
    - right. rewrite HK, <- HP, nth_error_app2, Nat.sub_diag in Hp by lia.
      inversion Hp. rewrite HK. auto. }
  assert (HlenP : length (plots (trace s1)) = S (S (length (updates (trace s)))))
    by (rewrite HP1, length_app; simpl; lia).
  assert (HlenU : length (updates (trace s1)) = S (length (updates (trace s))))
    by (rewrite HU1, length_app; simpl; lia).
  repeat split.
  - apply Hcases in H as [(Hp0 & Hnq & _) | (-> & _ & _)];
      [destruct H0; [lia | congruence] | exact HlenP].
  - apply Hcases in H as [(Hp0 & Hnq & _) | (-> & _ & _)];
      [destruct H0; [lia | congruence] | exact HlenU].
  - apply Hcases in H as [(Hp0 & Hnq & _) | (_ & -> & _)];
      [destruct H0; [lia | congruence] | left; now rewrite Hw'].
  - intros k p key Hc _ Hnq. left.
    apply Hcases in Hc as [(_ & _ & Hu & Hk) | (_ & _ & ->)]; [| congruence].
    split; [exact Hu | left; lia].
  - inversion H; reflexivity.
  - inversion H; subst. exists (S (length (updates (trace s)))), p', key'.
    repeat split; auto.
    + rewrite HP1, nth_error_app2 by lia. rewrite HP, Nat.sub_diag. reflexivity.
    + rewrite HK1, nth_error_app2 by lia. rewrite HK, Nat.sub_diag. reflexivity.
Qed.

(** Not left: the invariant at the next test. *)
Lemma loop_head_next (s s1 : frame) (p' : plot_args) (key' : string) :
  loop_head_ok s -> 0 < num_errs s ->
  plots (trace s1) = plots (trace s) ++ [p'] ->
  inputs (trace s1) = inputs (trace s) ++ [key'] ->
  updates (trace s1) = updates (trace s) ++ [cur_w s] ->
  plot_w p' = cur_w s1 -> plot_errs p' = num_errs s1 ->
  contains_q key' = false ->
  loop_head_ok s1.
Proof.
  intros (HP & HK & (pn & kn & [Hpn Hkn] & Hw & He & Hq) & Hist)
         Hpos HP1 HK1 HU1 Hw' He' Hq'.
  assert (HlenU : length (updates (trace s1)) = S (length (updates (trace s))))
    by (rewrite HU1, length_app; simpl; lia).
  unfold loop_head_ok. rewrite HlenU. repeat split.
  - rewrite HP1, length_app; simpl; lia.
  - rewrite HK1, length_app; simpl; lia.
  - exists p', key'. repeat split; auto.
    + rewrite HP1, nth_error_app2 by lia. rewrite HP, Nat.sub_diag. reflexivity.
    + rewrite HK1, nth_error_app2 by lia. rewrite HK, Nat.sub_diag. reflexivity.
  - destruct H0 as [Hp Hk]. rewrite HP1, nth_error_app1 in Hp by lia.
    rewrite HK1, nth_error_app1 in Hk by lia.
    destruct (Nat.eq_dec k (length (updates (trace s)))) as [-> | Hne].
    + rewrite Hpn in Hp. inversion Hp; subst. lia.
    + destruct (Hist k p key) as (Hp0 & _); [lia | split; assumption | exact Hp0].
  - destruct H0 as [Hp Hk]. rewrite HP1, nth_error_app1 in Hp by lia.
    rewrite HK1, nth_error_app1 in Hk by lia.
    destruct (Nat.eq_dec k (length (updates (trace s)))) as [-> | Hne].
    + rewrite Hkn in Hk. inversion Hk; subst. exact Hq.
    + destruct (Hist k p key) as (_ & Hnq & _); [lia | split; assumption | exact Hnq].
  - destruct H0 as [Hp Hk]. rewrite HP1, nth_error_app1 in Hp by lia.
    rewrite HK1, nth_error_app1 in Hk by lia.
    destruct (Nat.eq_dec k (length (updates (trace s)))) as [-> | Hne].
    + rewrite Hpn in Hp. inversion Hp; subst.
      rewrite HU1, nth_error_app2, Nat.sub_diag by lia. simpl. now rewrite Hw.
    + destruct (Hist k p key) as (_ & _ & Hu); [lia | split; assumption |].
      rewrite HU1, nth_error_app1 by lia. exact Hu.
Qed.

End Halting.

Section TrainingLoopHalts.

Context {K : Scalar}.

Variables neg_examples pos_examples : matrix.
Variable w_gen_feas : vec.

Lemma while_loop_halting (keys : list string) (st st' : frame) (rl : result unit) :
  loop_head_ok st ->
  while_loop neg_examples pos_examples w_gen_feas keys st = (st', rl) ->
  halting_ok w_gen_feas st'
    (match rl with Ok _ => Ok (cur_w st') | Raise e => Raise e end).
Proof.
  intros Hst Hrun.
  eapply while_loop_rule
    with (I := loop_head_ok)
         (Q := fun s rl => halting_ok w_gen_feas s
                 (match rl with Ok _ => Ok (cur_w s) | Raise e => Raise e end));
    [ | | | | | exact Hst | exact Hrun].
  - intros s Hs Hz. now apply halting_exit_zero.
  - intros s s1 e Hs Hpos Hep.
    destruct (epoch_cases neg_examples pos_examples w_gen_feas s)
      as [(e' & s' & He & _ & Ht & Hne)
         | (w' & m0 & m1 & dl & s' & _ & _ & He & _)];
      rewrite He in Hep; inversion Hep; subst.
    apply halting_raise with (s := s) (extra := []); auto;
      rewrite Ht, ?plots_app, ?inputs_app, ?updates_app; simpl;
      now rewrite ?app_nil_r.
  - intros s s1 Hs Hpos Hep.
    destruct (epoch_cases neg_examples pos_examples w_gen_feas s)
      as [(e' & s' & He & _ & Ht & Hne)
         | (w' & m0 & m1 & dl & s' & _ & _ & He & _ & _ & _ & _ & _ & _ & Ht)];
      rewrite He in Hep; inversion Hep; subst.
    eapply halting_raise with (s := s) (extra := [_]); auto;
      try (right; discriminate);
      rewrite Ht, ?plots_app, ?inputs_app, ?updates_app; simpl;
      rewrite ?app_nil_r; reflexivity.
  - intros s s1 key Hs Hpos Hep Hq.
    destruct (epoch_cases neg_examples pos_examples w_gen_feas s)
      as [(e' & s' & He & _ & Ht & Hne)
         | (w' & m0 & m1 & dl & s' & _ & _ & He & _ & _ & Hw & _ & _ & _ & Ht)];
      rewrite He in Hep; inversion Hep; subst.
    eapply halting_quit with (s := s) (key' := key); auto; simpl;
      try (rewrite Ht, ?plots_app, ?inputs_app, ?updates_app; simpl;
           rewrite ?app_nil_r; reflexivity).
    reflexivity.
  - intros s s1 key Hs Hpos Hep Hq.
    destruct (epoch_cases neg_examples pos_examples w_gen_feas s)
      as [(e' & s' & He & _ & Ht & Hne)
         | (w' & m0 & m1 & dl & s' & _ & _ & He & _ & _ & Hw & Hn & _ & _ & Ht)];
      rewrite He in Hep; inversion Hep; subst.
    eapply loop_head_next with (s := s) (key' := key); auto; simpl;
      try (rewrite Ht, ?plots_app, ?inputs_app, ?updates_app; simpl;
           rewrite ?app_nil_r; reflexivity).
    + reflexivity.
    + rewrite Hn. reflexivity.
Qed.

End TrainingLoopHalts.

Section LearnPerceptronHalts.

Context {K : Scalar}.

Variables neg_examples_nobias pos_examples_nobias : matrix.
Variables w_init w_gen_feas : vec.
Variable randn : num * num * num.

Lemma checkpoint_single (st : frame) (p0 p : plot_args) (key0 key : string)
    (k : nat) :
  plots (trace st) = [p0] -> inputs (trace st) = [key0] ->
  checkpoint st k p key -> k = 0 /\ p = p0 /\ key = key0.
Proof.
  intros HP HK [Hp Hk]. rewrite HP in Hp. rewrite HK in Hk.
  destruct k as [| k]; simpl in *; [split; [reflexivity | split; congruence] |].
  destruct k; discriminate.
Qed.

Lemma append_ones_rows (a b : matrix) (n : nat) :
  Forall (fun row => S (length row) = n) (a ++ b) ->
  Forall (fun x => length x = n) (append_ones a ++ append_ones b).
Proof.
  intros H. unfold append_ones. rewrite <- map_app. apply Forall_map.
  eapply Forall_impl; [| exact H]. simpl. intros row Hrow.
  rewrite length_app, Nat.add_1_r. exact Hrow.
Qed.

(** On inputs of the shapes of the data model (every row one column short
    of the weight vector, the feasible vector absent or of its length) a
    run raises nothing but EOFError, at a checkpoint left without answer. *)
Lemma well_shaped_run_raises_EOFError_only (stdin : list string) (st : frame)
    (r : result vec) :
  learn_perceptron neg_examples_nobias pos_examples_nobias w_init w_gen_feas
                   randn stdin = (st, r) ->
  Forall (fun row => S (length row) = length (initial_weights w_init randn))
         (neg_examples_nobias ++ pos_examples_nobias) ->
  w_gen_feas = [] \/
  length w_gen_feas = length (initial_weights w_init randn) ->
  forall e, r = Raise e -> e = EOFError.
Proof.
  intros Hrun Hrows Hfeas e Hr. apply append_ones_rows in Hrows.
  apply learn_perceptron_cases in Hrun
    as [(e' & He & _ & _) | (m0 & m1 & _ & Hrun)].
  { destruct (@eval_perceptron_well_shaped _ _ _ _ Hrows
                (initial_weights w_init randn) eq_refl) as (m0 & m1 & Hev).
    congruence. }
  cbv zeta in Hrun.
  destruct Hrun as [(_ & _ & ->) | (key0 & keys & _ & Hrun)]; [congruence |].
  destruct Hrun as [(_ & _ & ->) | (_ & Hrun)]; [discriminate |].
  destruct Hrun as [(e' & Hg & He & _ & _) | (dl & rl & _ & Hloop & ->)].
  { exfalso. destruct Hfeas as [Hnil | Hlen]; [contradiction |].
    destruct (@norm_diff_same_length _ (initial_weights w_init randn) w_gen_feas Hlen)
      as [d Hd]. congruence. }
  apply (@while_loop_well_shaped _ _ _ _ _ Hrows Hfeas) in Hloop;
    [| reflexivity].
  destruct Hloop as [-> | ->]; [discriminate | congruence].
Qed.

(** C7. In every run: a checkpoint that shows no error, or is answered to
    quit, is the last (no further evaluation, no further call of
    [update_weights]) and [learn_perceptron] returns the weights shown
    there; a checkpoint that shows errors and is answered to continue is
    followed by a call of [update_weights] on the weights shown and by the
    next evaluation; and a run that returns returns the current weights, at
    a checkpoint that shows no error or is answered to quit.  The ways a run
    can end in an exception instead are set apart: on inputs of the shapes
    of the data model only end of input at a checkpoint (first conjunct);
    otherwise also NumPy's shape error, in an epoch or, after the first
    checkpoint, in the distance to a feasible vector of another shape. *)
Theorem training_loop_halts (stdin : list string) (st : frame) (r : result vec) :
  learn_perceptron neg_examples_nobias pos_examples_nobias w_init w_gen_feas
                   randn stdin = (st, r) ->
  (Forall (fun row => S (length row) = length (initial_weights w_init randn))
          (neg_examples_nobias ++ pos_examples_nobias) ->
   w_gen_feas = [] \/
   length w_gen_feas = length (initial_weights w_init randn) ->
   forall e, r = Raise e -> e = EOFError) /\
  (forall k p key, checkpoint st k p key ->
     plot_errs p = 0 \/ contains_q key = true ->
     length (plots (trace st)) = S k /\
     length (updates (trace st)) = k /\
     (r = Ok (plot_w p) \/
      w_gen_feas <> [] /\
      exists e, norm_diff (plot_w p) w_gen_feas = Raise e /\ r = Raise e)) /\
  (forall k p key, checkpoint st k p key ->
     0 < plot_errs p -> contains_q key = false ->
     nth_error (updates (trace st)) k = Some (plot_w p) /\
     (S k < length (plots (trace st)) \/
      exists e, r = Raise e /\ e <> EOFError) \/
     w_gen_feas <> [] /\
     exists e, norm_diff (plot_w p) w_gen_feas = Raise e /\ r = Raise e) /\
  (forall w, r = Ok w ->
     w = cur_w st /\
     exists k p key, checkpoint st k p key /\
       length (plots (trace st)) = S k /\ plot_w p = w /\
       (plot_errs p = 0 \/ contains_q key = true)).
Proof.
  intros Hrun. split; [exact (well_shaped_run_raises_EOFError_only _ Hrun) |].
  change (halting_ok w_gen_feas st r).
  apply learn_perceptron_cases in Hrun
    as [(e & _ & -> & ->) | (m0 & m1 & _ & Hrun)].
  { split; [| split]; try discriminate;
      intros k p key [Hp _]; destruct k; discriminate Hp. }
  cbv zeta in Hrun.
  destruct Hrun as [(_ & -> & ->) | (key0 & keys & _ & Hrun)].
  { split; [| split]; try discriminate;
      intros k p key [_ Hk]; destruct k; discriminate Hk. }
  destruct Hrun as [(Hq & -> & ->) | (Hq & Hrun)].
  { split; [| split].
    - intros k p key Hc _.
      eapply checkpoint_single in Hc; [| reflexivity | reflexivity].
      destruct Hc as (Ek & Ep & Ekey); subst k p key.
      simpl. auto.
    - intros k p key Hc _ Hnq.
      eapply checkpoint_single in Hc; [| reflexivity | reflexivity].
      destruct Hc as (Ek & Ep & Ekey); subst k p key.
      congruence.
    - intros w Hw. inversion Hw; subst. split; [reflexivity |].
      exists 0. do 2 eexists. split; [split; reflexivity |]. simpl. auto. }
  destruct Hrun as [(e & Hg & He & -> & ->) | (dl & rl & _ & Hloop & ->)].
  { split; [| split]; try discriminate.
    - intros k p key Hc _.
      eapply checkpoint_single in Hc; [| reflexivity | reflexivity].
      destruct Hc as (Ek & Ep & Ekey); subst k p key.
      simpl. repeat split. right. split; [exact Hg | exists e; auto].
    - intros k p key Hc _ _.
      eapply checkpoint_single in Hc; [| reflexivity | reflexivity].
      destruct Hc as (Ek & Ep & Ekey); subst k p key.
      right. split; [exact Hg | exists e; auto]. }
  apply while_loop_halting in Hloop; [exact Hloop |].
  unfold loop_head_ok, checkpoint; simpl.
  split; [reflexivity |]. split; [reflexivity |]. split.
  - do 2 eexists. repeat split; auto.
  - intros k p key Hk. lia.
Qed.

End LearnPerceptronHalts.

(** * Further properties of the code *)

(** ** eval_perceptron: when it raises, and how many mistakes it can report *)

Section EvaluatorEdges.

Context {K : Scalar}.

(** X1. [eval_perceptron] raises exactly when some row of either matrix
    does not have as many entries as [w], and then it raises ValueError;
    its index loops never leave the matrices. *)
Theorem eval_perceptron_raises_iff (neg_examples pos_examples : matrix) (w : vec)
    (e : exn) :
  eval_perceptron neg_examples pos_examples w = Raise e <->
  e = ValueError /\
  Exists (fun x => length x <> length w) (neg_examples ++ pos_examples).
Proof.
  split.
  - intros He.
    destruct (Forall_Exists_dec (fun x => length x = length w)
                (fun x => Nat.eq_dec (length x) (length w))
                (neg_examples ++ pos_examples)) as [Hall | Hex].
    + destruct (@eval_perceptron_well_shaped _ _ _ _ Hall w eq_refl)
        as (m0 & m1 & Hok). congruence.
    + split; [| exact Hex].
      rewrite (eval_perceptron_shape_mismatch _ _ _ Hex) in He. congruence.
  - intros [-> Hex]. apply eval_perceptron_shape_mismatch. exact Hex.
Qed.

(** A loop that appends at most one index a turn collects at most as many
    as it made turns. *)
Lemma collect_indices_length (n : nat) (body : nat -> list nat -> result (list nat))
    (r : list nat) :
  (forall i acc acc', body i acc = Ok acc' -> acc' = acc ++ [i] \/ acc' = acc) ->
  for_range n body [] = Ok r -> length r <= n.
Proof.
  intros Hbody Hr.
  refine (for_range_inv (fun i m => length m <= i) _ _ _ _ Hr); [simpl; lia |].
  intros i acc acc' _ Hacc Hb.
  destruct (Hbody _ _ _ Hb) as [-> | ->];
    [rewrite length_app; simpl; lia | lia].
Qed.

(** X2. [eval_perceptron] reports at most as many mistakes of a class as
    the class has examples. *)
Theorem eval_perceptron_count_bound (neg_examples pos_examples : matrix)
    (w : vec) (m0 m1 : list nat) :
  eval_perceptron neg_examples pos_examples w = Ok (m0, m1) ->
  length m0 <= length neg_examples /\ length m1 <= length pos_examples.
Proof.
  intros H. apply eval_perceptron_ok in H as [H0 H1].
  split; (eapply collect_indices_length; [| eassumption]);
    intros i acc acc' Hb;
    apply rbind_ok in Hb as (x & _ & Hb);
    apply rbind_ok in Hb as (a & _ & Hb);
    match type of Hb with (if ?c then _ else _) = _ => destruct c end;
    inversion Hb; auto.
Qed.

End EvaluatorEdges.

(** ** update_weights at weights that make no mistake *)

Section UpdaterFixedPoint.

Context {K : Scalar}.

Lemma update_weights_with_modelled (neg_examples pos_examples : matrix) (w : vec) :
  update_weights neg_examples pos_examples w
  = update_weights_with correct_negative correct_positive
      neg_examples pos_examples w.
Proof. reflexivity. Qed.

(** Rows whose test fails are passed over. *)
Lemma for_each_no_fix (test : num -> bool) (fix_w : vec -> vec -> result vec)
    (examples : matrix) (w : vec) :
  Forall (fun x => exists a, dot x w = Ok a /\ test a = false) examples ->
  for_each examples (fun x w =>
      rbind (dot x w) (fun activation =>
      if test activation then fix_w w x else Ok w)) w = Ok w.
Proof.
  induction 1 as [| x rest (a & Ha & Ht) _ IH]; simpl; [reflexivity |].
  rewrite Ha. simpl. rewrite Ht. simpl. exact IH.
Qed.

(** Where no index is collected, every row was tested and passed. *)
Lemma no_mistake_rows (examples : matrix) (w : vec) (test : num -> bool) :
  Forall (fun x => length x = length w) examples ->
  (forall j, In j [] <->
     exists x a, nth_error examples j = Some x /\ dot x w = Ok a /\ test a = true) ->
  Forall (fun x => exists a, dot x w = Ok a /\ test a = false) examples.
Proof.
  intros Hall Hnone. apply Forall_forall. intros x Hin.
  rewrite Forall_forall in Hall.
  destruct (dot_same_length _ _ (Hall x Hin)) as [a Ha].
  exists a. split; [exact Ha |].
  destruct (test a) eqn:Ht; [| reflexivity].
  apply In_nth_error in Hin as [j Hj].
  exfalso. apply (proj2 (Hnone j)). exists x, a. auto.
Qed.

(** X3. Weights for which [eval_perceptron] finds no mistake are left as
    they are by one call of [update_weights], whatever statements stand
    under its two tests, the modelled ones included: the tests of the two
    functions are the same. *)
Theorem update_weights_fixed_point (neg_examples pos_examples : matrix) (w : vec) :
  eval_perceptron neg_examples pos_examples w = Ok ([], []) ->
  (forall fix_negative fix_positive,
     update_weights_with fix_negative fix_positive neg_examples pos_examples w
     = Ok w) /\
  update_weights neg_examples pos_examples w = Ok w.
Proof.
  intros Hev.
  assert (Hall : Forall (fun x => length x = length w) (neg_examples ++ pos_examples)).
  { destruct (Forall_Exists_dec (fun x => length x = length w)
                (fun x => Nat.eq_dec (length x) (length w))
                (neg_examples ++ pos_examples)) as [Hall | Hex]; [exact Hall |].
    rewrite (eval_perceptron_shape_mismatch _ _ _ Hex) in Hev. discriminate. }
  apply Forall_app in Hall as [Hneg Hpos].
  apply eval_perceptron_ok in Hev as [H0 H1].
  pose proof (collect_mistakes_spec _ _ (fun a => leb zero a) H0) as S0.
  pose proof (collect_mistakes_spec _ _ (fun a => ltb a zero) H1) as S1.
  pose proof (@no_mistake_rows _ _ (fun a => leb zero a) Hneg S0) as N0.
  pose proof (@no_mistake_rows _ _ (fun a => ltb a zero) Hpos S1) as N1.
  assert (Hgen : forall fix_negative fix_positive,
            update_weights_with fix_negative fix_positive neg_examples
              pos_examples w = Ok w).
  { intros fn fp. unfold update_weights_with. cbv zeta.
    rewrite (for_range_getitem neg_examples (fun x w =>
        rbind (dot x w) (fun activation =>
        if leb zero activation then fn w x else Ok w))).
    rewrite (@for_each_no_fix (fun a => leb zero a) fn _ _ N0). simpl.
    rewrite (for_range_getitem pos_examples (fun x w =>
        rbind (dot x w) (fun activation =>
        if ltb activation zero then fp w x else Ok w))).
    rewrite (@for_each_no_fix (fun a => ltb a zero) fp _ _ N1). reflexivity. }
  split; [exact Hgen |].
  rewrite update_weights_with_modelled. apply Hgen.
Qed.

End UpdaterFixedPoint.

(** ** What a run of learn_perceptron returns *)

Lemma epochs_snoc {K : Scalar} (n : nat) (neg_examples pos_examples : matrix)
    (w0 w w' : vec) :
  epochs n neg_examples pos_examples w0 = Ok w ->
  update_weights neg_examples pos_examples w = Ok w' ->
  epochs (S n) neg_examples pos_examples w0 = Ok w'.
Proof.
  revert w0; induction n as [| n IH]; intros w0 Hn Hup.
  - simpl in Hn. inversion Hn; subst. simpl. rewrite Hup. reflexivity.
  - simpl in Hn. apply rbind_ok in Hn as (w1 & H1 & Hn).
    change (rbind (update_weights neg_examples pos_examples w0)
              (epochs (S n) neg_examples pos_examples) = Ok w').
    rewrite H1. simpl rbind. apply IH; assumption.
Qed.

Section ReturnedWeights.

Context {K : Scalar}.

Variables neg_examples pos_examples : matrix.
Variable w_gen_feas : vec.

Lemma while_loop_epochs (w0 : vec) (keys : list string) (st st' : frame)
    (rl : result unit) :
  epochs (iter st) neg_examples pos_examples w0 = Ok (cur_w st) ->
  while_loop neg_examples pos_examples w_gen_feas keys st = (st', rl) ->
  rl = Ok tt ->
  epochs (iter st') neg_examples pos_examples w0 = Ok (cur_w st').
Proof.
  intros Hst Hrun.
  eapply while_loop_rule
    with (I := fun s => epochs (iter s) neg_examples pos_examples w0
                        = Ok (cur_w s))
         (Q := fun s rl => rl = Ok tt ->
                 epochs (iter s) neg_examples pos_examples w0 = Ok (cur_w s));
    [ | | | | | exact Hst | exact Hrun]; try discriminate; auto.
  - intros s s1 key Hs _ Hep _ _.
    destruct (epoch_cases neg_examples pos_examples w_gen_feas s)
      as [(e' & s' & He & _ & _ & _)
         | (w' & m0 & m1 & dl & s' & Hup & _ & He & _ & Hi & Hw & _)];
      rewrite He in Hep; inversion Hep; subst.
    simpl. rewrite Hi. eapply epochs_snoc; eauto.
  - intros s s1 key Hs _ Hep _.
    destruct (epoch_cases neg_examples pos_examples w_gen_feas s)
      as [(e' & s' & He & _ & _ & _)
         | (w' & m0 & m1 & dl & s' & Hup & _ & He & _ & Hi & Hw & _)];
      rewrite He in Hep; inversion Hep; subst.
    simpl. rewrite Hi. eapply epochs_snoc; eauto.
Qed.

(** At the test of the loop [num_errs] counts the mistakes of the current
    weights and is the last entry of the error history. *)
Lemma while_loop_separates (keys : list string) (st st' : frame)
    (rl : result unit) :
  (exists m0 m1, eval_perceptron neg_examples pos_examples (cur_w st) = Ok (m0, m1) /\
                 num_errs st = length m0 + length m1) ->
  (exists h, num_err_history st = h ++ [num_errs st]) ->
  while_loop neg_examples pos_examples w_gen_feas keys st = (st', rl) ->
  rl = Ok tt ->
  (forall key, In key (inputs (trace st')) -> contains_q key = false) ->
  eval_perceptron neg_examples pos_examples (cur_w st') = Ok ([], []) /\
  exists h, num_err_history st' = h ++ [0].
Proof.
  intros Hst Hh Hrun.
  eapply while_loop_rule
    with (I := fun s =>
                 (exists m0 m1,
                    eval_perceptron neg_examples pos_examples (cur_w s) = Ok (m0, m1) /\
                    num_errs s = length m0 + length m1) /\
                 (exists h, num_err_history s = h ++ [num_errs s]))
         (Q := fun s rl => rl = Ok tt ->
                 (forall key, In key (inputs (trace s)) -> contains_q key = false) ->
                 eval_perceptron neg_examples pos_examples (cur_w s) = Ok ([], []) /\
                 exists h, num_err_history s = h ++ [0]);
    [ | | | | | | exact Hrun]; [ | | | | | split; assumption]; try discriminate.
  - intros s [(m0 & m1 & Hev & Hn) [h Hhist]] Hz _ _.
    split; [| exists h; rewrite Hhist, Hz; reflexivity].
    destruct m0; destruct m1; simpl in Hn; try lia. exact Hev.
  - intros s s1 key _ _ _ Hq _ Hall. exfalso.
    assert (Hin : In key (inputs (trace (log_event (EvInput key) s1)))).
    { simpl. rewrite inputs_app. apply in_or_app. right. simpl. auto. }
    apply Hall in Hin. congruence.
  - intros s s1 key _ _ Hep _.
    destruct (epoch_cases neg_examples pos_examples w_gen_feas s)
      as [(e' & s' & He & _ & _ & _)
         | (w' & m0 & m1 & dl & s' & _ & Hev & He & _ & _ & Hw & Hn & Hhist & _)];
      rewrite He in Hep; inversion Hep; subst.
    split.
    + exists m0, m1. simpl. rewrite Hn. auto.
    + exists (num_err_history s). simpl. rewrite Hhist, Hn. reflexivity.
Qed.

(** Once the first answer was to continue, the two histories grow together. *)
Lemma while_loop_distance_length (keys : list string) (st st' : frame)
    (rl : result unit) :
  (w_gen_feas = [] -> w_dist_history st = []) ->
  (w_gen_feas <> [] ->
   length (w_dist_history st) = length (num_err_history st)) ->
  while_loop neg_examples pos_examples w_gen_feas keys st = (st', rl) ->
  rl = Ok tt ->
  (w_gen_feas = [] -> w_dist_history st' = []) /\
  (w_gen_feas <> [] ->
   length (w_dist_history st') = length (num_err_history st')).
Proof.
  intros H1 H2 Hrun.
  assert (Hstep : forall s s1,
            ((w_gen_feas = [] -> w_dist_history s = []) /\
             (w_gen_feas <> [] ->
              length (w_dist_history s) = length (num_err_history s))) ->
            epoch neg_examples pos_examples w_gen_feas s = (s1, Ok tt) ->
            (w_gen_feas = [] -> w_dist_history s1 = []) /\
            (w_gen_feas <> [] ->
             length (w_dist_history s1) = length (num_err_history s1))).
  { intros s s1 [Ha Hb] Hep.
    destruct (epoch_cases neg_examples pos_examples w_gen_feas s)
      as [(e' & s' & He & _ & _ & _)
         | (w' & m0 & m1 & dl & s' & _ & _ & He & Hdl & _ & _ & _ & Hh & Hd & _)];
      rewrite He in Hep; inversion Hep; subst.
    rewrite Hd, Hh.
    destruct Hdl as [[Hg ->] | (Hg & d & _ & ->)].
    - split; [intros _; rewrite app_nil_r; auto | contradiction].
    - split; [contradiction |]. intros _. rewrite !length_app, (Hb Hg). reflexivity. }
  eapply while_loop_rule
    with (I := fun s => (w_gen_feas = [] -> w_dist_history s = []) /\
                 (w_gen_feas <> [] ->
                  length (w_dist_history s) = length (num_err_history s)))
         (Q := fun s rl => rl = Ok tt ->
                 (w_gen_feas = [] -> w_dist_history s = []) /\
                 (w_gen_feas <> [] ->
                  length (w_dist_history s) = length (num_err_history s)));
    [ | | | | | | exact Hrun]; [ | | | | | split; assumption];
    try discriminate; auto.
  - intros s s1 key Hs _ Hep _ _. exact (Hstep _ _ Hs Hep).
  - intros s s1 key Hs _ Hep _. exact (Hstep _ _ Hs Hep).
Qed.

End ReturnedWeights.

Section WhatIsReturned.

Context {K : Scalar}.

Variables neg_examples_nobias pos_examples_nobias : matrix.
Variables w_init w_gen_feas : vec.
Variable randn : num * num * num.

(** X4. The weights [learn_perceptron] returns are the initial weights
    after [iter] applications of [update_weights] to the augmented
    examples, [iter] being the number of epochs run. *)
Theorem learn_perceptron_returns_epochs (stdin : list string) (st : frame)
    (r : result vec) (w : vec) :
  learn_perceptron neg_examples_nobias pos_examples_nobias w_init w_gen_feas
                   randn stdin = (st, r) ->
  r = Ok w ->
  epochs (iter st) (append_ones neg_examples_nobias)
         (append_ones pos_examples_nobias) (initial_weights w_init randn)
  = Ok w.
Proof.
  intros Hrun Hr.
  apply learn_perceptron_cases in Hrun
    as [(e & _ & _ & ->) | (m0 & m1 & _ & Hrun)]; [discriminate |].
  cbv zeta in Hrun.
  destruct Hrun as [(_ & _ & ->) | (key & keys & _ & Hrun)]; [discriminate |].
  destruct Hrun as [(_ & -> & ->) | (_ & Hrun)]; [simpl; exact Hr |].
  destruct Hrun as [(e & _ & _ & _ & ->) | (dl & rl & _ & Hloop & ->)];
    [discriminate |].
  destruct rl as [[] | e]; [| discriminate].
  inversion Hr; subst w.
  eapply while_loop_epochs; [| exact Hloop | reflexivity]. reflexivity.
Qed.

(** X5. When [learn_perceptron] returns and no answer it read contains q,
    the weights returned make no mistake: [eval_perceptron] finds none on
    the augmented examples, and the last entry of the error history is 0. *)
Theorem returns_without_quit_separates (stdin : list string) (st : frame)
    (r : result vec) (w : vec) :
  learn_perceptron neg_examples_nobias pos_examples_nobias w_init w_gen_feas
                   randn stdin = (st, r) ->
  r = Ok w ->
  (forall key, In key (inputs (trace st)) -> contains_q key = false) ->
  eval_perceptron (append_ones neg_examples_nobias)
                  (append_ones pos_examples_nobias) w = Ok ([], []) /\
  exists h, num_err_history st = h ++ [0].
Proof.
  intros Hrun Hr Hall.
  apply learn_perceptron_cases in Hrun
    as [(e & _ & _ & ->) | (m0 & m1 & Hev & Hrun)]; [discriminate |].
  cbv zeta in Hrun.
  destruct Hrun as [(_ & _ & ->) | (key & keys & _ & Hrun)]; [discriminate |].
  destruct Hrun as [(Hq & -> & ->) | (_ & Hrun)].
  { exfalso. assert (Hk : contains_q key = false) by (apply Hall; simpl; auto).
    congruence. }
  destruct Hrun as [(e & _ & _ & _ & ->) | (dl & rl & _ & Hloop & ->)];
    [discriminate |].
  destruct rl as [[] | e]; [| discriminate].
  inversion Hr; subst w.
  eapply while_loop_separates; [| | exact Hloop | reflexivity | exact Hall].
  - exists m0, m1. simpl. auto.
  - exists []. reflexivity.
Qed.

(** X6. When [learn_perceptron] returns: without a feasible vector the
    distance history is empty; with one, and a first answer to continue,
    it has as many entries as the error history. *)
Theorem distance_history_length (stdin : list string) (st : frame)
    (r : result vec) (w : vec) :
  learn_perceptron neg_examples_nobias pos_examples_nobias w_init w_gen_feas
                   randn stdin = (st, r) ->
  r = Ok w ->
  (w_gen_feas = [] -> w_dist_history st = []) /\
  (w_gen_feas <> [] ->
   forall key, hd_error (inputs (trace st)) = Some key ->
     contains_q key = false ->
     length (w_dist_history st) = length (num_err_history st)).
Proof.
  intros Hrun Hr.
  apply learn_perceptron_cases in Hrun
    as [(e & _ & _ & ->) | (m0 & m1 & Hev & Hrun)]; [discriminate |].
  cbv zeta in Hrun.
  destruct Hrun as [(_ & _ & ->) | (key0 & keys & _ & Hrun)]; [discriminate |].
  destruct Hrun as [(Hq & -> & ->) | (_ & Hrun)].
  { split; [reflexivity |]. intros _ key Hkey Hnq. simpl in Hkey.
    inversion Hkey; subst. congruence. }
  destruct Hrun as [(e & _ & _ & _ & ->) | (dl & rl & Hdl & Hloop & ->)];
    [discriminate |].
  destruct rl as [[] | e]; [| discriminate].
  eapply while_loop_distance_length in Hloop; [| | | reflexivity].
  - destruct Hloop as [Ha Hb]. split; [exact Ha |]. intros Hg key _ _. auto.
  - simpl. intros Hg. destruct Hdl as [[_ ->] | [Hne _]]; [reflexivity | contradiction].
  - simpl. intros Hg. destruct Hdl as [[Hnil _] | (_ & d & _ & ->)];
      [contradiction | reflexivity].
Qed.

End WhatIsReturned.

(** ** What the collaborators are given and asked *)

Section Collaborators.

Context {K : Scalar}.

Variables neg_examples pos_examples : matrix.
Variable w_gen_feas : vec.

Lemma while_loop_plots (keys : list string) (st st' : frame) (rl : result unit) :
  plot_shows_evaluation neg_examples pos_examples st ->
  iter st = length (updates (trace st)) ->
  while_loop neg_examples pos_examples w_gen_feas keys st = (st', rl) ->
  plot_shows_evaluation neg_examples pos_examples st'.
Proof.
  intros HP Hi Hrun.
  assert (Hstep : forall s s1 tail,
            plot_shows_evaluation neg_examples pos_examples s ->
            iter s = length (updates (trace s)) ->
            epoch neg_examples pos_examples w_gen_feas s = (s1, Ok tt) ->
            (forall pre1 p post, tail = pre1 ++ EvPlot p :: post -> False) ->
            forall s2, trace s2 = trace s1 ++ tail ->
              plot_shows_evaluation neg_examples pos_examples s2).
  { intros s s1 tail HPs His Hep Htail s2 H2.
    destruct (epoch_cases neg_examples pos_examples w_gen_feas s)
      as [(e' & s' & He & _ & _ & _)
         | (w' & m0 & m1 & dl & s' & _ & Hev & He & _ & _ & _ & _ & _ & _ & Ht)];
      rewrite He in Hep; inversion Hep; subst.
    unfold plot_shows_evaluation. rewrite H2, Ht, <- app_assoc.
    apply each_plot_extension; [exact HPs |].
    intros pre1 p post E. simpl in E. events_inversion E.
    - inversion E; subst; simpl. repeat split; auto.
      + apply last_last.
      + exists (trace s ++ [EvUpdate (cur_w s)]).
        rewrite <- app_assoc. simpl.
        rewrite updates_app, length_app. simpl.
        rewrite His, Nat.add_1_r. reflexivity.
    - exfalso. eapply Htail. exact E. }
  eapply while_loop_rule
    with (I := fun s => plot_shows_evaluation neg_examples pos_examples s /\
                        iter s = length (updates (trace s)))
         (Q := fun s _ => plot_shows_evaluation neg_examples pos_examples s);
    [ | | | | | | exact Hrun]; [ | | | | | split; assumption].
  - intros s [HPs _] _. exact HPs.
  - intros s s1 e [HPs _] _ Hep.
    destruct (epoch_cases neg_examples pos_examples w_gen_feas s)
      as [(e' & s' & He & _ & Ht & _)
         | (w' & m0 & m1 & dl & s' & _ & _ & He & _)];
      rewrite He in Hep; inversion Hep; subst.
    unfold plot_shows_evaluation. rewrite Ht.
    apply each_plot_extension; [exact HPs |].
    intros pre1 p post E. events_inversion E.
  - intros s s1 [HPs His] _ Hep.
    apply (Hstep s s1 [] HPs His Hep).
    + intros pre1 p post E. events_inversion E.
    + now rewrite app_nil_r.
  - intros s s1 key [HPs His] _ Hep _.
    apply (Hstep s s1 [EvInput key] HPs His Hep).
    + intros pre1 p post E. events_inversion E.
    + reflexivity.
  - intros s s1 key [HPs His] _ Hep _. split.
    + apply (Hstep s s1 [EvInput key] HPs His Hep).
      * intros pre1 p post E. events_inversion E.
      * reflexivity.
    + destruct (epoch_cases neg_examples pos_examples w_gen_feas s)
        as [(e' & s' & He & _ & _ & _)
           | (w' & m0 & m1 & dl & s' & _ & _ & He & _ & Hi1 & _ & _ & _ & _ & Ht)];
        rewrite He in Hep; inversion Hep; subst.
      simpl. rewrite Ht, Hi1, His, !updates_app, !length_app. simpl. lia.
Qed.

(** The answers the loop reads are the first of those it is given, in
    order; when it ends for want of an answer it has read them all and
    none was to quit. *)
Lemma while_loop_inputs (keys : list string) :
  forall (st st' : frame) (rl : result unit),
  while_loop neg_examples pos_examples w_gen_feas keys st = (st', rl) ->
  exists read rest,
    keys = read ++ rest /\
    inputs (trace st') = inputs (trace st) ++ read /\
    (rl = Raise EOFError ->
     rest = [] /\ Forall (fun key => contains_q key = false) read).
Proof.
  induction keys as [| key keys' IH]; intros st st' rl Hrun;
    rewrite while_loop_unfold in Hrun;
    (destruct (0 <? num_errs st);
     [| inversion Hrun; subst; exists []; eexists;
        split; [reflexivity |];
        split; [rewrite app_nil_r; reflexivity | discriminate]]);
    (destruct (epoch_cases neg_examples pos_examples w_gen_feas st)
       as [(e' & s' & He & _ & Ht & Hne)
          | (w' & m0 & m1 & dl & s' & _ & _ & He & _ & _ & _ & _ & _ & _ & Ht)];
     rewrite He in Hrun).
  - inversion Hrun; subst. exists [], []. rewrite Ht, inputs_app, !app_nil_r.
    split; [reflexivity |]. split; [reflexivity |].
    intros H; inversion H; congruence.
  - inversion Hrun; subst. exists [], []. rewrite Ht, inputs_app, !app_nil_r.
    split; [reflexivity |]. split; [reflexivity |]. intros _. split; constructor.
  - inversion Hrun; subst. exists [], (key :: keys').
    rewrite Ht, inputs_app, !app_nil_r.
    split; [reflexivity |]. split; [reflexivity |].
    intros H; inversion H; congruence.
  - destruct (contains_q key) eqn:Hq.
    + inversion Hrun; subst. exists [key], keys'. simpl.
      rewrite Ht, !inputs_app. simpl. rewrite app_nil_r.
      split; [reflexivity |]. split; [reflexivity | discriminate].
    + apply IH in Hrun as (read & rest & -> & Hin & Heof).
      exists (key :: read), rest. simpl in Hin.
      rewrite Hin, Ht, !inputs_app. simpl. rewrite app_nil_r, <- app_assoc.
      split; [reflexivity |]. split; [reflexivity |].
      intros H. destruct (Heof H) as [-> Hall].
      split; [reflexivity | constructor; assumption].
Qed.

End Collaborators.

Section RunProtocol.

Context {K : Scalar}.

Variables neg_examples_nobias pos_examples_nobias : matrix.
Variables w_init w_gen_feas : vec.
Variable randn : num * num * num.

(** X7. In every run, each call of [plot_perceptron] is given the two
    augmented matrices, the mistake lists [eval_perceptron] returns for the
    weights it is given, and an error history whose last entry is the
    number of those mistakes; the weights and that number have just been
    printed, under an iteration number equal to the number of calls of
    [update_weights] made so far. *)
Theorem plots_show_evaluation (stdin : list string) (st : frame) (r : result vec) :
  learn_perceptron neg_examples_nobias pos_examples_nobias w_init w_gen_feas
                   randn stdin = (st, r) ->
  forall pre p post, trace st = pre ++ EvPlot p :: post ->
    plot_neg_examples p = append_ones neg_examples_nobias /\
    plot_pos_examples p = append_ones pos_examples_nobias /\
    eval_perceptron (append_ones neg_examples_nobias)
                    (append_ones pos_examples_nobias) (plot_w p)
      = Ok (plot_mistakes0 p, plot_mistakes1 p) /\
    last (plot_num_err_history p) 0 = plot_errs p /\
    exists pre',
      pre = pre' ++ [EvPrint (length (updates pre)) (plot_errs p) (plot_w p)].
Proof.
  intros Hrun.
  change (plot_shows_evaluation (append_ones neg_examples_nobias)
            (append_ones pos_examples_nobias) st).
  apply learn_perceptron_cases in Hrun
    as [(e & _ & -> & _) | (m0 & m1 & Hev & Hrun)].
  { intros pre p post E. simpl in E. events_inversion E. }
  cbv zeta in Hrun.
  assert (Hfirst : forall tail,
            (forall pre1 p post, tail = pre1 ++ EvPlot p :: post -> False) ->
            forall s, trace s =
              [EvPrint 0 (length m0 + length m1) (initial_weights w_init randn);
               EvPlot {| plot_neg_examples := append_ones neg_examples_nobias;
                         plot_pos_examples := append_ones pos_examples_nobias;
                         plot_mistakes0 := m0;
                         plot_mistakes1 := m1;
                         plot_num_err_history := [length m0 + length m1];
                         plot_w := initial_weights w_init randn;
                         plot_w_dist_history := [] |}] ++ tail ->
            plot_shows_evaluation (append_ones neg_examples_nobias)
              (append_ones pos_examples_nobias) s).
  { intros tail Htail s Hs pre p post E. rewrite Hs in E. simpl in E.
    events_inversion E.
    - inversion E; subst; simpl. repeat split; auto. exists []. reflexivity.
    - exfalso. eapply Htail. exact E. }
  destruct Hrun as [(_ & -> & _) | (key & keys & _ & Hrun)].
  { apply (Hfirst []); [| reflexivity].
    intros pre1 p post E. events_inversion E. }
  destruct Hrun as [(_ & -> & _) | (_ & Hrun)].
  { apply (Hfirst [EvInput key]); [| reflexivity].
    intros pre1 p post E. events_inversion E. }
  destruct Hrun as [(e & _ & _ & -> & _) | (dl & rl & _ & Hloop & _)].
  { apply (Hfirst [EvInput key]); [| reflexivity].
    intros pre1 p post E. events_inversion E. }
  eapply while_loop_plots; [| | exact Hloop].
  - apply (Hfirst [EvInput key]); [| reflexivity].
    intros pre1 p post E. events_inversion E.
  - reflexivity.
Qed.

(** X8. The answers a run reads are the first lines of standard input, in
    order and without gaps; a run that ends in EOFError has read every
    line, and none of them contains q. *)
Theorem answers_read_in_order (stdin : list string) (st : frame) (r : result vec) :
  learn_perceptron neg_examples_nobias pos_examples_nobias w_init w_gen_feas
                   randn stdin = (st, r) ->
  (exists rest, stdin = inputs (trace st) ++ rest) /\
  (r = Raise EOFError ->
   inputs (trace st) = stdin /\
   Forall (fun key => contains_q key = false) stdin).
Proof.
  intros Hrun.
  apply learn_perceptron_cases in Hrun
    as [(e & He & -> & ->) | (m0 & m1 & _ & Hrun)].
  { split; [exists stdin; reflexivity |]. intros H. inversion H; subst.
    apply eval_perceptron_raise in He. congruence. }
  cbv zeta in Hrun.
  destruct Hrun as [(-> & -> & _) | (key & keys & -> & Hrun)].
  { split; [exists []; reflexivity |]. intros _. split; [reflexivity | constructor]. }
  destruct Hrun as [(_ & -> & ->) | (Hq & Hrun)].
  { split; [exists keys; reflexivity | discriminate]. }
  destruct Hrun as [(e & _ & He & -> & ->) | (dl & rl & _ & Hloop & ->)].
  { split; [exists keys; reflexivity |]. intros H. inversion H; subst.
    apply norm_diff_raise in He. discriminate. }
  apply while_loop_inputs in Hloop as (read & rest & -> & Hin & Heof).
  simpl in Hin. rewrite Hin. split; [exists rest; reflexivity |].
  intros H. destruct rl as [[] | e]; [discriminate |].
  inversion H; subst e.
  destruct (Heof eq_refl) as [-> Hall]. rewrite app_nil_r.
  split; [reflexivity | constructor; assumption].
Qed.

End RunProtocol.

(** ** read_dataset *)

Lemma read_keys_ok {A} (data : mat_dict A) (ks : list string) (l : list A) :
  read_keys data ks = inr l <-> map (dict_get data) ks = map Some l.
Proof.
  revert l; induction ks as [| k ks IH]; intros l; simpl.
  - split; intros H.
    + inversion H; reflexivity.
    + destruct l; [reflexivity | discriminate].
  - destruct (dict_get data k) as [v |] eqn:Hk.
    + destruct (read_keys data ks) as [e | vs] eqn:Hrec.
      * split; [discriminate |]. intros H.
        destruct l as [| v' l]; [discriminate |]. simpl in H.
        inversion H as [[Hv Hl]]. apply IH in Hl. discriminate.
      * split; intros H.
        -- inversion H; subst. simpl. f_equal. apply IH. reflexivity.
        -- destruct l as [| v' l]; [discriminate |]. simpl in H.
           inversion H as [[Hv Hl]]. apply IH in Hl. congruence.
    + split; [discriminate |]. intros H.
      destruct l; discriminate.
Qed.

Lemma read_keys_error {A} (data : mat_dict A) (ks : list string) (k : string) :
  read_keys data ks = inl (KeyError k) <->
  exists before after,
    ks = before ++ k :: after /\ dict_get data k = None /\
    Forall (fun k' => dict_get data k' <> None) before.
Proof.
  split.
  - induction ks as [| k0 ks IH]; simpl; [discriminate |].
    destruct (dict_get data k0) as [v |] eqn:Hk.
    + destruct (read_keys data ks) as [e | vs]; [| discriminate].
      intros H. inversion H; subst e.
      destruct (IH eq_refl) as (before & after & -> & Hnone & Hall).
      exists (k0 :: before), after. repeat split; auto.
      constructor; [congruence | exact Hall].
    + intros H. inversion H; subst k0. exists [], ks. repeat split; auto.
  - intros (before & after & -> & Hnone & Hall).
    induction Hall as [| b before Hb _ IH]; simpl.
    + rewrite Hnone. reflexivity.
    + destruct (dict_get data b); [| contradiction]. rewrite IH. reflexivity.
Qed.

(** X10. [read_dataset] returns the four arrays stored under
    neg_examples_nobias, pos_examples_nobias, w_init and w_gen_feas, in
    that order, exactly when the dictionary has all four, whatever else
    it holds; otherwise it raises KeyError for the first of the four, in
    that order, that is missing. *)
Theorem read_dataset_result {A} (data : mat_dict A) :
  (forall l, read_dataset data = inr l <->
     exists neg pos w_init w_gen_feas,
       l = [neg; pos; w_init; w_gen_feas] /\
       dict_get data "neg_examples_nobias" = Some neg /\
       dict_get data "pos_examples_nobias" = Some pos /\
       dict_get data "w_init" = Some w_init /\
       dict_get data "w_gen_feas" = Some w_gen_feas) /\
  (forall k, read_dataset data = inl (KeyError k) <->
     exists before after,
       dataset_keys = before ++ k :: after /\ dict_get data k = None /\
       Forall (fun k' => dict_get data k' <> None) before).
Proof.
  split.
  - intros l. unfold read_dataset. rewrite read_keys_ok. simpl. split.
    + intros H.
      destruct l as [| a [| b [| c [| d [| x l]]]]]; try discriminate.
      inversion H. exists a, b, c, d. auto.
    + intros (a & b & c & d & -> & Ha & Hb & Hc & Hd). simpl. congruence.
  - intros k. apply read_keys_error.
Qed.

(** * Runs on the float64 datasets *)

Unset Implicit Arguments.

(** C2 at w = (0,0,0), where both activations are zero: the negative
    example is recorded, the positive one is not. *)
Lemma eval_perceptron_mistakes_witness :
  (forall i, In i [0] <->
     exists x a, nth_error (append_ones toy_negatives) i = Some x /\
                 dot x toy_w_init = Ok a /\ leb zero a = true) /\
  (forall i, In i [] <->
     exists x a, nth_error (append_ones toy_positives) i = Some x /\
                 dot x toy_w_init = Ok a /\ ltb a zero = true) /\
  (forall i x a, nth_error (append_ones toy_negatives) i = Some x ->
     dot x toy_w_init = Ok a -> eqb a zero = true -> In i [0]) /\
  (forall i x a, nth_error (append_ones toy_positives) i = Some x ->
     dot x toy_w_init = Ok a -> eqb a zero = true -> ~ In i []).
Proof.
  apply (@eval_perceptron_mistakes float64 float64_order
           (append_ones toy_negatives) (append_ones toy_positives)
           toy_w_init [0] []).
  vm_compute. reflexivity.
Defined.

(** C3 on the same evaluation. *)
Lemma eval_perceptron_sorted_in_range_witness :
  (StronglySorted lt [0] /\
   Forall (fun i => i < length (append_ones toy_negatives)) [0]) /\
  (StronglySorted lt [] /\
   Forall (fun i => i < length (append_ones toy_positives)) []).
Proof.
  apply (@eval_perceptron_sorted_in_range float64
           (append_ones toy_negatives) (append_ones toy_positives)
           toy_w_init [0] []).
  vm_compute. reflexivity.
Defined.

(** C5 on the run that converges after one epoch. *)
Lemma error_history_length_witness :
  let run := learn_perceptron toy_negatives toy_positives toy_w_init
               toy_w_gen_feas toy_randn [""%string; ""%string] in
  plot_history_ok (fst run) /\
  (forall w, snd run = Ok w -> history_ok (fst run)).
Proof.
  cbv zeta.
  apply (@error_history_length float64 toy_negatives toy_positives toy_w_init
           toy_w_gen_feas toy_randn [""%string; ""%string]).
  vm_compute. reflexivity.
Defined.

(** C6 on the run that is told to quit at once. *)
Lemma quit_at_first_checkpoint_witness :
  let run := learn_perceptron toy_negatives toy_positives toy_w_init
               toy_w_gen_feas toy_randn ["q"%string] in
  snd run = Ok toy_w_init /\
  cur_w (fst run) = toy_w_init /\
  length (num_err_history (fst run)) = 1 /\
  updates (trace (fst run)) = [] /\
  iter (fst run) = 0.
Proof.
  cbv zeta.
  apply (@quit_at_first_checkpoint float64 toy_negatives toy_positives
           toy_w_init toy_w_gen_feas toy_randn ["q"%string] _ _ "q"%string).
  - vm_compute. reflexivity.
  - discriminate.
  - vm_compute. reflexivity.
  - reflexivity.
Defined.

(** C7 on the run that converges after one epoch. *)
Lemma training_loop_halts_witness :
  let run := learn_perceptron toy_negatives toy_positives toy_w_init
               toy_w_gen_feas toy_randn [""%string; ""%string] in
  (Forall (fun row => S (length row) = length (initial_weights toy_w_init toy_randn))
          (toy_negatives ++ toy_positives) ->
   toy_w_gen_feas = [] \/
   length toy_w_gen_feas = length (initial_weights toy_w_init toy_randn) ->
   forall e, snd run = Raise e -> e = EOFError) /\
  halting_ok toy_w_gen_feas (fst run) (snd run).
Proof.
  intros run.
  refine (@training_loop_halts float64 toy_negatives toy_positives toy_w_init
            toy_w_gen_feas toy_randn [""%string; ""%string] (fst run) (snd run) _).
  vm_compute. reflexivity.
Defined.

(** C8: three raw columns, four weights and no error. The evaluation of
    epoch 0 finds no mistake and [learn_perceptron] returns the four
    weights after the first checkpoint. *)
Lemma shape_mismatch_accepted :
  let run := learn_perceptron wide_negatives wide_positives wide_w_init []
               toy_randn [""%string] in
  Exists (fun row => length row <> 2) (wide_negatives ++ wide_positives) /\
  wide_w_init <> [] /\ length wide_w_init <> 3 /\
  snd run = Ok wide_w_init /\
  length (plots (trace (fst run))) = 1.
Proof.
  cbv zeta. split; [apply Exists_cons_hd; simpl; lia |].
  split; [discriminate |]. split; [simpl; lia |].
  split; vm_compute; reflexivity.
Defined.

(** The amended C8: three raw columns against three weights, and a
    feasible vector of two components against three weights. *)
Lemma shape_mismatch_raises_ValueError_witness :
  learn_perceptron wide_negatives toy_positives toy_w_init toy_w_gen_feas
                   toy_randn [""%string]
  = (initial_frame (initial_weights toy_w_init toy_randn), Raise ValueError) /\
  exists st : frame,
    learn_perceptron toy_negatives toy_positives toy_w_init short_w_gen_feas
                     toy_randn [""%string]
    = (st, Raise ValueError) /\
    length (plots (trace st)) = 1 /\
    inputs (trace st) = [""%string] /\
    updates (trace st) = [] /\
    w_dist_history st = [] /\
    iter st = 0.
Proof.
  split.
  - apply (proj1 (@shape_mismatch_raises_ValueError float64 wide_negatives
                    toy_positives toy_w_init toy_w_gen_feas toy_randn)
                 [""%string]).
    apply Exists_cons_hd. simpl. lia.
  - apply (proj2 (@shape_mismatch_raises_ValueError float64 toy_negatives
                    toy_positives toy_w_init short_w_gen_feas toy_randn)
                 ""%string []).
    + repeat constructor.
    + discriminate.
    + simpl. lia.
    + simpl. lia.
    + simpl. lia.
    + reflexivity.
Defined.

(** C9: a feasible vector is supplied, its distance from the initial
    weights can be taken, and the call of [plot_perceptron] of epoch 0
    receives an empty distance history. *)
Lemma epoch0_plot_without_distance :
  let run := learn_perceptron toy_negatives toy_positives toy_w_init
               toy_w_gen_feas toy_randn [""%string; ""%string] in
  toy_w_gen_feas <> [] /\
  exists p0 d,
    hd_error (plots (trace (fst run))) = Some p0 /\
    norm_diff toy_w_init toy_w_gen_feas = Ok d /\
    plot_w_dist_history p0 = [] /\
    ~ In d (plot_w_dist_history p0).
Proof.
  cbv zeta. split; [discriminate |].
  eexists. eexists. split; [vm_compute; reflexivity |].
  split; [vm_compute; reflexivity |].
  split; [reflexivity | intros []].
Defined.

(** The amended C9 on the same run. *)
Lemma distance_recorded_after_first_answer_witness :
  let run := learn_perceptron toy_negatives toy_positives toy_w_init
               toy_w_gen_feas toy_randn [""%string; ""%string] in
  plot_distance_ok (initial_weights toy_w_init toy_randn) toy_w_gen_feas
                   (fst run).
Proof.
  intros run.
  refine (@distance_recorded_after_first_answer float64 toy_negatives
            toy_positives toy_w_init toy_w_gen_feas toy_randn
            [""%string; ""%string] (fst run) (snd run) _ _).
  - vm_compute. reflexivity.
  - discriminate.
Defined.

(** C10 on the run that is told to quit at once, a feasible vector being
    supplied. *)
Lemma no_distance_when_quit_first_witness :
  let run := learn_perceptron toy_negatives toy_positives toy_w_init
               toy_w_gen_feas toy_randn ["q"%string] in
  (exists w, snd run = Ok w) /\
  w_dist_history (fst run) = [] /\
  length (num_err_history (fst run)) = 1.
Proof.
  cbv zeta.
  apply (@no_distance_when_quit_first float64 toy_negatives toy_positives
           toy_w_init toy_w_gen_feas toy_randn ["q"%string] _ _ "q"%string).
  - vm_compute. reflexivity.
  - discriminate.
  - vm_compute. reflexivity.
  - reflexivity.
Defined.

(** X2 on the evaluation at w = (0,0,0). *)
Lemma eval_perceptron_count_bound_witness :
  length [0] <= length (append_ones toy_negatives) /\
  length (@nil nat) <= length (append_ones toy_positives).
Proof.
  apply (@eval_perceptron_count_bound float64
           (append_ones toy_negatives) (append_ones toy_positives)
           toy_w_init [0] []).
  vm_compute. reflexivity.
Defined.

(** X3 at the separating vector (1,1,-1). *)
Lemma update_weights_fixed_point_witness :
  (forall fix_negative fix_positive,
     update_weights_with fix_negative fix_positive
       (append_ones toy_negatives) (append_ones toy_positives) toy_w_gen_feas
     = Ok toy_w_gen_feas) /\
  update_weights (append_ones toy_negatives) (append_ones toy_positives)
                 toy_w_gen_feas = Ok toy_w_gen_feas.
Proof.
  apply (@update_weights_fixed_point float64
           (append_ones toy_negatives) (append_ones toy_positives)
           toy_w_gen_feas).
  vm_compute. reflexivity.
Defined.

(** X4 on the run that converges after one epoch. *)
Lemma learn_perceptron_returns_epochs_witness :
  let run := learn_perceptron toy_negatives toy_positives toy_w_init
               toy_w_gen_feas toy_randn [""%string; ""%string] in
  epochs (iter (fst run)) (append_ones toy_negatives)
         (append_ones toy_positives) (initial_weights toy_w_init toy_randn)
  = Ok toy_w_gen_feas.
Proof.
  intros run.
  refine (@learn_perceptron_returns_epochs float64 toy_negatives toy_positives
            toy_w_init toy_w_gen_feas toy_randn [""%string; ""%string]
            (fst run) (snd run) toy_w_gen_feas _ _).
  - vm_compute. reflexivity.
  - vm_compute. reflexivity.
Defined.

(** X5 on the same run, which reads two empty answers. *)
Lemma returns_without_quit_separates_witness :
  let run := learn_perceptron toy_negatives toy_positives toy_w_init
               toy_w_gen_feas toy_randn [""%string; ""%string] in
  eval_perceptron (append_ones toy_negatives) (append_ones toy_positives)
                  toy_w_gen_feas = Ok ([], []) /\
  exists h, num_err_history (fst run) = h ++ [0].
Proof.
  intros run.
  refine (@returns_without_quit_separates float64 toy_negatives toy_positives
            toy_w_init toy_w_gen_feas toy_randn [""%string; ""%string]
            (fst run) (snd run) toy_w_gen_feas _ _ _).
  - vm_compute. reflexivity.
  - vm_compute. reflexivity.
  - assert (Hread : inputs (trace (fst run)) = [""%string; ""%string])
      by (vm_compute; reflexivity).
    rewrite Hread. intros key [<- | [<- | []]]; reflexivity.
Defined.

(** X6 on the same run, with the feasible vector supplied. *)
Lemma distance_history_length_witness :
  let run := learn_perceptron toy_negatives toy_positives toy_w_init
               toy_w_gen_feas toy_randn [""%string; ""%string] in
  (toy_w_gen_feas = [] -> w_dist_history (fst run) = []) /\
  (toy_w_gen_feas <> [] ->
   forall key, hd_error (inputs (trace (fst run))) = Some key ->
     contains_q key = false ->
     length (w_dist_history (fst run)) = length (num_err_history (fst run))).
Proof.
  intros run.
  refine (@distance_history_length float64 toy_negatives toy_positives
            toy_w_init toy_w_gen_feas toy_randn [""%string; ""%string]
            (fst run) (snd run) toy_w_gen_feas _ _).
  - vm_compute. reflexivity.
  - vm_compute. reflexivity.
Defined.

(** X7 on the same run. *)
Lemma plots_show_evaluation_witness :
  let run := learn_perceptron toy_negatives toy_positives toy_w_init
               toy_w_gen_feas toy_randn [""%string; ""%string] in
  plot_shows_evaluation (append_ones toy_negatives) (append_ones toy_positives)
                        (fst run).
Proof.
  intros run.
  refine (@plots_show_evaluation float64 toy_negatives toy_positives
            toy_w_init toy_w_gen_feas toy_randn [""%string; ""%string]
            (fst run) (snd run) _).
  vm_compute. reflexivity.
Defined.

(** X8 on a run left without answer at its second checkpoint. *)
Lemma answers_read_in_order_witness :
  let run := learn_perceptron toy_negatives toy_positives toy_w_init
               toy_w_gen_feas toy_randn [""%string] in
  (exists rest, [""%string] = inputs (trace (fst run)) ++ rest) /\
  (snd run = Raise EOFError ->
   inputs (trace (fst run)) = [""%string] /\
   Forall (fun key => contains_q key = false) [""%string]).
Proof.
  intros run.
  refine (@answers_read_in_order float64 toy_negatives toy_positives
            toy_w_init toy_w_gen_feas toy_randn [""%string]
            (fst run) (snd run) _).
  vm_compute. reflexivity.
Defined.
